(** * XBlock runtime: storage keys, the in-memory store, the field overlay
      and the path query resolver

    A shallow embedding of [xblock/runtime.py].  Python exceptions are
    values of [PyExn] carried by [result]; the mutable store is threaded
    explicitly; dictionaries are finite maps. *)

From Stdlib Require Import Ascii String.
From stdpp Require Import gmap strings list fin_maps pretty.

Local Open Scope string_scope.

(** ** Exceptions and fallible results *)

Inductive PyExn :=
  | KeyError (k : string)
  | BadPath
  | NotImplementedError.

Inductive result (A : Type) :=
  | Ok (a : A)
  | Raise (e : PyExn).
Arguments Ok {A} a.
Arguments Raise {A} e.

#[global] Instance result_ret : MRet result := fun _ a => Ok a.
#[global] Instance result_bind : MBind result := fun _ _ f r =>
  match r with
  | Ok a => f a
  | Raise e => Raise e
  end.

(** ** Scopes

    Modelled from the spec: the [Scope] and [BlockScope] declarations of the
    [core] module, which the runtime imports but which is not among the
    sources.  A scope is the pair (granularity, per-user flag); the
    granularities are the four block scopes the runtime names
    ([BlockScope.USAGE], [DEFINITION], [TYPE], [ALL]) and the two
    tree-structure scopes it compares against ([Scope.children],
    [Scope.parent]). *)

Inductive BlockScope := USAGE | DEFINITION | TYPE | ALL.

Inductive Granularity :=
  | Block (b : BlockScope)
  | CHILDREN
  | PARENT.

Record Scope := mkScope { user : bool; granularity : Granularity }.

(** The enumerator values of [BlockScope], as [actual_key] uses them to index
    its list of bucket tags. *)
Definition BlockScope_value (b : BlockScope) : nat :=
  match b with
  | USAGE => 0
  | DEFINITION => 1
  | TYPE => 2
  | ALL => 3
  end.

#[global] Instance BlockScope_eq_dec : EqDecision BlockScope.
Proof. solve_decision. Defined.
#[global] Instance Granularity_eq_dec : EqDecision Granularity.
Proof. solve_decision. Defined.
#[global] Instance Scope_eq_dec : EqDecision Scope.
Proof. solve_decision. Defined.

(** ** Structured keys: [KeyValueStore.Key] and [BlockId] *)

Record Key := mkKey {
  scope : Scope;
  student_id : option string;
  block_scope_id : option string;
  field_name : string
}.

Record BlockId := mkBlockId { usage_id : string; def_id : string }.

#[global] Instance Key_eq_dec : EqDecision Key.
Proof. solve_decision. Defined.

Definition Granularity_code (g : Granularity) : nat :=
  match g with
  | Block b => BlockScope_value b
  | CHILDREN => 4
  | PARENT => 5
  end.

Definition Granularity_of_code (n : nat) : Granularity :=
  match n with
  | 0 => Block USAGE
  | 1 => Block DEFINITION
  | 2 => Block TYPE
  | 3 => Block ALL
  | 4 => CHILDREN
  | _ => PARENT
  end.

#[global] Instance Granularity_countable : Countable Granularity.
Proof.
  apply (inj_countable' Granularity_code Granularity_of_code).
  intros [[]| |]; reflexivity.
Defined.

#[global] Instance Scope_countable : Countable Scope.
Proof.
  apply (inj_countable' (fun s => (user s, granularity s))
                        (fun p => mkScope (fst p) (snd p))).
  intros []; reflexivity.
Defined.

#[global] Instance Key_countable : Countable Key.
Proof.
  apply (inj_countable'
           (fun k => (scope k, student_id k, block_scope_id k, field_name k))
           (fun t => match t with (s, u, b, f) => mkKey s u b f end)).
  intros []; reflexivity.
Defined.

(** ** The in-memory store *)

Module MemoryKeyValueStore.
Section Store.
Context {Value : Type}.

(** [self.d]: bucket string -> field name -> value. *)
Record t := mk { d : gmap string (gmap string Value) }.

(** [MemoryKeyValueStore()] with no initial dictionary. *)
Definition init : t := mk ∅.

Definition clear (self : t) : t := mk ∅.

(** [["usage", "definition", "type", "all"][key.scope.block]] *)
Definition block_tag (b : BlockScope) : string :=
  nth (BlockScope_value b) ["usage"; "definition"; "type"; "all"] EmptyString.

(** Python truthiness of [key.student_id]: [None] and the empty string are
    both false. *)
Definition truthy (o : option string) : bool :=
  match o with
  | None => false
  | Some s => negb (bool_decide (s = EmptyString))
  end.

(** The list [k] that [actual_key] builds before joining it. *)
Definition actual_key_parts (key : Key) : list string :=
  let k : list string := [] in
  let k := (k ++ [match granularity (scope key) with
                  | CHILDREN => "children"
                  | PARENT => "parent"
                  | Block b => block_tag b
                  end])%list in
  let k := match block_scope_id key with
           | Some i => (k ++ [i])%list
           | None => k
           end in
  let k := if truthy (student_id key)
           then (k ++ [default EmptyString (student_id key)])%list
           else k in
  k.

Definition actual_key (key : Key) : string :=
  String.concat "." (actual_key_parts key).

(** [self.d[self.actual_key(key)][key.field_name]]: either subscript raises
    [KeyError] with the missing key. *)
Definition get (self : t) (key : Key) : result Value :=
  match d self !! actual_key key with
  | None => Raise (KeyError (actual_key key))
  | Some bucket =>
      match bucket !! field_name key with
      | None => Raise (KeyError (field_name key))
      | Some v => Ok v
      end
  end.

(** [self.d.setdefault(self.actual_key(key), {})[key.field_name] = value] *)
Definition set (self : t) (key : Key) (value : Value) : t :=
  let bucket := default ∅ (d self !! actual_key key) in
  mk (<[actual_key key := <[field_name key := value]> bucket]> (d self)).

(** [del self.d[self.actual_key(key)][key.field_name]] *)
Definition delete (self : t) (key : Key) : result t :=
  match d self !! actual_key key with
  | None => Raise (KeyError (actual_key key))
  | Some bucket =>
      match bucket !! field_name key with
      | None => Raise (KeyError (field_name key))
      | Some _ =>
          Ok (mk (<[actual_key key := base.delete (field_name key) bucket]>
                    (d self)))
      end
  end.

(** [key.field_name in self.d[self.actual_key(key)]]: the subscript comes
    first and raises when the bucket is missing. *)
Definition has (self : t) (key : Key) : result bool :=
  match d self !! actual_key key with
  | None => Raise (KeyError (actual_key key))
  | Some bucket => Ok (bool_decide (is_Some (bucket !! field_name key)))
  end.

(** [for key, value in update_dict.items(): self.set(key, value)] *)
Definition set_many (self : t) (update_dict : gmap Key Value) : t :=
  map_fold (fun key value acc => set acc key value) self update_dict.

End Store.
Arguments t : clear implicits.
End MemoryKeyValueStore.

(** ** The abstract store interface

    [KeyValueStore] is duck-typed: the overlay calls [get], [set], [delete],
    [has] and [set_many] on whatever backend it was given.  A backend is a
    state type with the five methods; every call returns the backend's next
    state together with its outcome, so that a raised exception keeps the
    mutations made before it. *)

Module KeyValueStore.
Class Interface (Value S : Type) := {
  get : S -> Key -> result Value * S;
  set : S -> Key -> Value -> result unit * S;
  delete : S -> Key -> result unit * S;
  has : S -> Key -> result bool * S;
  set_many : S -> gmap Key Value -> result unit * S
}.
End KeyValueStore.

(** The in-memory store as a backend. *)
#[global] Instance MemoryKeyValueStore_backend {Value : Type} :
  KeyValueStore.Interface Value (MemoryKeyValueStore.t Value) := {|
  KeyValueStore.get self key := (MemoryKeyValueStore.get self key, self);
  KeyValueStore.set self key value :=
    (Ok tt, MemoryKeyValueStore.set self key value);
  KeyValueStore.delete self key :=
    match MemoryKeyValueStore.delete self key with
    | Ok self' => (Ok tt, self')
    | Raise e => (Raise e, self)
    end;
  KeyValueStore.has self key := (MemoryKeyValueStore.has self key, self);
  KeyValueStore.set_many self update_dict :=
    (Ok tt, MemoryKeyValueStore.set_many self update_dict)
|}.

(** A backend that records the name of every call it receives and forwards
    the call to the backend it wraps. *)
Module Recording.
Inductive Call := CallGet | CallSet | CallDelete | CallHas | CallSetMany.

Record t (S : Type) := mk { inner : S; calls : list Call }.
Arguments mk {S} inner calls.
Arguments inner {S} _.
Arguments calls {S} _.

Definition forward {S A : Type} (c : Call) (self : t S)
    (r : result A * S) : result A * t S :=
  (fst r, mk (snd r) (calls self ++ [c])).
End Recording.

#[global] Instance Recording_backend {Value S : Type}
    `{!KeyValueStore.Interface Value S} :
  KeyValueStore.Interface Value (Recording.t S) := {|
  KeyValueStore.get self key :=
    Recording.forward Recording.CallGet self
      (KeyValueStore.get (Recording.inner self) key);
  KeyValueStore.set self key value :=
    Recording.forward Recording.CallSet self
      (KeyValueStore.set (Recording.inner self) key value);
  KeyValueStore.delete self key :=
    Recording.forward Recording.CallDelete self
      (KeyValueStore.delete (Recording.inner self) key);
  KeyValueStore.has self key :=
    Recording.forward Recording.CallHas self
      (KeyValueStore.has (Recording.inner self) key);
  KeyValueStore.set_many self update_dict :=
    Recording.forward Recording.CallSetMany self
      (KeyValueStore.set_many (Recording.inner self) update_dict)
|}.

(** ** Block type metadata

    Modelled from the spec: the field descriptors ([ModelType]) and the block
    class of the [core] module, which is not among the sources.  A field
    descriptor is reached under its name, the class attribute that declares
    it, and carries its scope.  A block class has a type name, the attributes
    of the class that are field descriptors, and, when it has a [namespaces]
    attribute at all, the ordered namespace names, each with the field
    descriptors declared on the type of the namespace object bound to that
    name. *)

Module ModelType.
Record t := mk { scope : Scope }.
End ModelType.

Record Namespace := mkNamespace {
  namespace_fields : gmap string ModelType.t
}.

Record BlockClass := mkBlockClass {
  __name__ : string;
  class_fields : gmap string ModelType.t;
  namespaces : option (list (string * Namespace))
}.

(** ** The field overlay *)

Module DbModel.

(** The overlay's attributes; [self._kvs] is a reference to a shared store,
    whose state the methods take and return. *)
Record t := mk {
  _student_id : option string;
  _block_cls : BlockClass;
  _block_id : BlockId
}.

(** The loop of [_getfield]: the first namespace, in order, whose type has a
    field descriptor under [name]. *)
Fixpoint resolve_in_namespaces (nss : list (string * Namespace))
    (name : string) : option ModelType.t :=
  match nss with
  | [] => None
  | (namespace_name, namespace) :: rest =>
      match namespace_fields namespace !! name with
      | Some namespace_field => Some namespace_field
      | None => resolve_in_namespaces rest name
      end
  end.

Definition _getfield (self : t) (name : string) : result ModelType.t :=
  match class_fields (_block_cls self) !! name with
  | Some block_field => Ok block_field
  | None =>
      match namespaces (_block_cls self) with
      | None => Raise (KeyError name)
      | Some nss =>
          match resolve_in_namespaces nss name with
          | Some namespace_field => Ok namespace_field
          | None => Raise (KeyError name)
          end
      end
  end.

Definition _key (self : t) (name : string) : result Key :=
  field ← _getfield self name;
  let '(block_id, student_id) :=
    match granularity (ModelType.scope field) with
    | CHILDREN | PARENT => (Some (usage_id (_block_id self)), None)
    | Block block =>
        let block_id :=
          match block with
          | ALL => None
          | USAGE => Some (usage_id (_block_id self))
          | DEFINITION => Some (def_id (_block_id self))
          | TYPE => Some (__name__ (_block_cls self))
          end in
        let student_id :=
          if user (ModelType.scope field) then _student_id self else None in
        (block_id, student_id)
    end in
  Ok (mkKey (ModelType.scope field) student_id block_id name).

Section Overlay.
Context {Value S : Type} `{!KeyValueStore.Interface Value S}.

Definition __getitem__ (self : t) (name : string) (kvs : S)
    : result Value * S :=
  match _key self name with
  | Ok key => KeyValueStore.get kvs key
  | Raise e => (Raise e, kvs)
  end.

Definition __setitem__ (self : t) (name : string) (value : Value) (kvs : S)
    : result unit * S :=
  match _key self name with
  | Ok key => KeyValueStore.set kvs key value
  | Raise e => (Raise e, kvs)
  end.

Definition __delitem__ (self : t) (name : string) (kvs : S)
    : result unit * S :=
  match _key self name with
  | Ok key => KeyValueStore.delete kvs key
  | Raise e => (Raise e, kvs)
  end.

(** [except KeyError: return False] covers both the key derivation and the
    call to the backend. *)
Definition catch_KeyError (r : result bool) : result bool :=
  match r with
  | Raise (KeyError _) => Ok false
  | _ => r
  end.

Definition __contains__ (self : t) (name : string) (kvs : S)
    : result bool * S :=
  match _key self name with
  | Ok key =>
      let '(r, kvs') := KeyValueStore.has kvs key in (catch_KeyError r, kvs')
  | Raise e => (catch_KeyError (Raise e), kvs)
  end.

(** The dictionaries that callers hand to [update] are shared objects: a
    heap maps references to dictionaries. *)
Definition alloc (heap : gmap nat (gmap string Value))
    (dict : gmap string Value) : nat * gmap nat (gmap string Value) :=
  let l := fresh (dom heap) in (l, <[l := dict]> heap).

Definition deref (heap : gmap nat (gmap string Value)) (l : nat)
    : gmap string Value :=
  default ∅ (heap !! l).

(** The loop of [update] that fills [updated_dict]; a name that does not
    resolve raises out of the loop.  A dictionary is iterated in an
    unspecified order, here the order of [map_fold]. *)
Definition resolve_all (self : t) (other_dict : gmap string Value)
    : result (gmap Key Value) :=
  map_fold
    (fun key value acc =>
       updated_dict ← acc;
       k ← _key self key;
       Ok (<[k := value]> updated_dict))
    (Ok ∅) other_dict.

(** [update(other_dict=None, **kwargs)]: [other_dict] is [None] or a
    reference into the heap; [kwargs] is a dictionary of its own. *)
Definition update (self : t) (other_dict : option nat)
    (kwargs : gmap string Value)
    (heap : gmap nat (gmap string Value)) (kvs : S)
    : result unit * S * gmap nat (gmap string Value) :=
  (* other_dict = other_dict or {} *)
  let '(other_dict, heap) :=
    match other_dict with
    | Some l =>
        if decide (deref heap l = ∅) then alloc heap ∅ else (l, heap)
    | None => alloc heap ∅
    end in
  (* other_dict.update(kwargs) *)
  let heap := <[other_dict := kwargs ∪ deref heap other_dict]> heap in
  match resolve_all self (deref heap other_dict) with
  | Ok updated_dict => (KeyValueStore.set_many kvs updated_dict, heap)
  | Raise e => (Raise e, kvs, heap)
  end.

End Overlay.
End DbModel.

(** ** The lexer

    [RegexLexer] joins its token regexes into one alternation; [lex] yields,
    for every match that [finditer] finds from left to right, the name of the
    alternative that matched and the matched text. *)

Inductive TokName := dotdot | dot | slashslash | slash | atword | word | err.

#[global] Instance TokName_eq_dec : EqDecision TokName.
Proof. solve_decision. Defined.

(** [\w] on a byte string: letters, digits and the underscore. *)
Definition is_word_char (c : ascii) : bool :=
  let n := nat_of_ascii c in
  (((48 <=? n) && (n <=? 57)) || ((65 <=? n) && (n <=? 90))
   || ((97 <=? n) && (n <=? 122)) || (n =? 95))%nat.

(** The longest prefix matching [\w*], and what follows it. *)
Fixpoint take_word (text : string) : string * string :=
  match text with
  | EmptyString => (EmptyString, EmptyString)
  | String c rest =>
      if is_word_char c
      then let '(w, rest') := take_word rest in (String c w, rest')
      else (EmptyString, text)
  end.

(** One match of the alternation at the head of [text]: the alternatives are
    tried in the order in which the lexer was given them.  [None] when none
    matches, which happens only on a newline, the one character that [.]
    refuses. *)
Definition match_token (text : string) : option (TokName * string * string) :=
  match text with
  | EmptyString => None
  | String c rest =>
      if Ascii.eqb c "." then
        match rest with
        | String c' rest' =>
            if Ascii.eqb c' "." then Some (dotdot, "..", rest')
            else Some (dot, ".", rest)
        | EmptyString => Some (dot, ".", rest)
        end
      else if Ascii.eqb c "/" then
        match rest with
        | String c' rest' =>
            if Ascii.eqb c' "/" then Some (slashslash, "//", rest')
            else Some (slash, "/", rest)
        | EmptyString => Some (slash, "/", rest)
        end
      else if Ascii.eqb c "@" then
        match take_word rest with
        | (EmptyString, _) => Some (err, "@", rest)
        | (w, rest') => Some (atword, String c w, rest')
        end
      else if is_word_char c then
        let '(w, rest') := take_word text in Some (word, w, rest')
      else if Ascii.eqb c "010" then None
      else Some (err, String c EmptyString, rest)
  end.

(** [finditer]: scan on after each match; skip a character where nothing
    matches.  Every round consumes a character, so the length of the text is
    fuel enough. *)
Fixpoint lex_from (fuel : nat) (text : string) : list (TokName * string) :=
  match fuel with
  | 0 => []
  | S fuel' =>
      match text with
      | EmptyString => []
      | String _ rest =>
          match match_token text with
          | Some (tokname, toktext, rest') =>
              (tokname, toktext) :: lex_from fuel' rest'
          | None => lex_from fuel' rest
          end
      end
  end.

Definition lex (text : string) : list (TokName * string) :=
  lex_from (String.length text) text.

(** ** The path query resolver *)

Module Runtime.

(** The tree-query object that [self.query(block)] returns: its five
    navigation methods, each returning a query object again. *)
Class Query (Q : Type) := {
  parent : Q -> Q;
  descendants : Q -> Q;
  children : Q -> Q;
  tagged : Q -> string -> Q;
  attr : Q -> string -> Q
}.

Inductive State := ROOT | SEP | WORD | FINAL.

#[global] Instance State_eq_dec : EqDecision State.
Proof. solve_decision. Defined.

(** [toktext[1:]] *)
Definition drop_first (s : string) : string :=
  match s with
  | EmptyString => EmptyString
  | String _ rest => rest
  end.

Section Querypath.
Context {Q : Type} `{!Query Q}.

(** The body of the loop of [querypath] for one token. *)
Definition querypath_step (q : Q) (state : State) (tok : TokName * string)
    : result (Q * State) :=
  let '(tokname, toktext) := tok in
  if decide (state = FINAL) then Raise BadPath
  else match tokname with
  | dotdot =>
      if decide (state = WORD) then Raise BadPath
      else Ok (parent q, WORD)
  | dot =>
      if decide (state = WORD) then Raise BadPath
      else Ok (q, WORD)
  | slashslash =>
      if decide (state = SEP) then Raise BadPath
      else if decide (state = ROOT) then Raise NotImplementedError
      else Ok (descendants q, SEP)
  | slash =>
      if decide (state = SEP) then Raise BadPath
      else if decide (state = ROOT) then Raise NotImplementedError
      else Ok (q, SEP)
  | atword =>
      if decide (state ≠ SEP) then Raise BadPath
      else Ok (attr q (drop_first toktext), FINAL)
  | word =>
      if decide (state ≠ SEP) then Raise BadPath
      else Ok (tagged (children q) toktext, WORD)
  | err => Raise BadPath
  end.

Fixpoint querypath_loop (q : Q) (state : State)
    (toks : list (TokName * string)) : result Q :=
  match toks with
  | [] => Ok q
  | tok :: rest =>
      match querypath_step q state tok with
      | Ok (q', state') => querypath_loop q' state' rest
      | Raise e => Raise e
      end
  end.

(** [querypath(block, path)], from the query object [q] that
    [self.query(block)] returned. *)
Definition querypath (q : Q) (path : string) : result Q :=
  querypath_loop q ROOT (lex path).

End Querypath.
End Runtime.

(** ** A tree-query object

    Modelled from the spec: the tree-query object of the external interfaces,
    which the runtime leaves to its subclasses ([Runtime.query] raises
    [NotImplementedError]).  A query holds the selected nodes, each with its
    ancestors from the nearest up, or the attribute values that [attr]
    selected. *)

Module TreeQuery.

#[warnings="-register-all"] Inductive Node :=
  | mkNode (tag : string) (attrs : list (string * string)) (kids : list Node).

Definition tag (n : Node) : string :=
  match n with mkNode t _ _ => t end.
Definition attrs (n : Node) : list (string * string) :=
  match n with mkNode _ a _ => a end.
Definition kids (n : Node) : list Node :=
  match n with mkNode _ _ k => k end.

Inductive t :=
  | Nodes (sel : list (Node * list Node))
  | Values (vs : list string).

Definition lookup_attr (name : string) (n : Node) : option string :=
  snd <$> List.find (fun p => bool_decide (fst p = name)) (attrs n).

Definition children_of (p : Node * list Node) : list (Node * list Node) :=
  List.map (fun k => (k, fst p :: snd p)) (kids (fst p)).

Fixpoint descendants_of (n : Node) (anc : list Node)
    : list (Node * list Node) :=
  match n with
  | mkNode _ _ ks =>
      List.flat_map (fun k => (k, n :: anc) :: descendants_of k (n :: anc)) ks
  end.

Definition parent_of (p : Node * list Node) : list (Node * list Node) :=
  match snd p with
  | [] => []
  | a :: anc => [(a, anc)]
  end.

Definition on_nodes (f : list (Node * list Node) -> t) (q : t) : t :=
  match q with
  | Nodes sel => f sel
  | Values _ => Values []
  end.

#[global] Instance query : Runtime.Query t := {|
  Runtime.parent := on_nodes (fun sel => Nodes (List.flat_map parent_of sel));
  Runtime.descendants :=
    on_nodes (fun sel =>
      Nodes (List.flat_map (fun p => descendants_of (fst p) (snd p)) sel));
  Runtime.children :=
    on_nodes (fun sel => Nodes (List.flat_map children_of sel));
  Runtime.tagged q name :=
    on_nodes (fun sel =>
      Nodes (List.filter (fun p => bool_decide (tag (fst p) = name)) sel)) q;
  Runtime.attr q name :=
    on_nodes (fun sel =>
      Values (omap (fun p => lookup_attr name (fst p)) sel)) q
|}.

(** The query that starts at node [n], a root. *)
Definition at_node (n : Node) : t := Nodes [(n, [])].

End TreeQuery.

(** ** Identifiers that the bucket separator keeps apart *)

(** The string has no occurrence of the separator of [actual_key]. *)
Fixpoint no_dot (s : string) : bool :=
  match s with
  | EmptyString => true
  | String c rest => negb (Ascii.eqb c ".") && no_dot rest
  end.

(** The key's block id, when it has one, is free of the separator, and its
    student id is not the empty string. *)
Definition plain_ids (key : Key) : Prop :=
  (forall i, block_scope_id key = Some i -> no_dot i = true) /\
  student_id key <> Some EmptyString.

(** What [join] puts after the first part: every further part behind a
    separator. *)
Definition suffix (parts : list string) : string :=
  foldr (fun x acc => String "." (x +:+ acc)) EmptyString parts.

Definition dotted (s : string) : Prop :=
  s = EmptyString \/ exists x, s = String "." x.

Definition tag_of (g : Granularity) : string :=
  match g with
  | CHILDREN => "children"
  | PARENT => "parent"
  | Block b => MemoryKeyValueStore.block_tag b
  end.

Definition id_parts (key : Key) : list string :=
  match block_scope_id key with Some i => [i] | None => [] end
  ++ (if MemoryKeyValueStore.truthy (student_id key)
      then [default EmptyString (student_id key)] else []).

(** ** Sample data *)

Module Samples.

(** A node with one child tagged [child] whose attribute [attr] is [v]. *)
Definition tree : TreeQuery.Node :=
  TreeQuery.mkNode "root" []
    [TreeQuery.mkNode "child" [("attr", "v")] []].

(** A key of a usage-scoped field that is not per-user. *)
Definition usage_key : Key :=
  mkKey (mkScope false (Block USAGE)) None (Some "0") "x".

(** Two keys whose identifiers differ and which share a bucket: the
    separator occurs inside the first key's block id. *)
Definition dotted_key : Key :=
  mkKey (mkScope false (Block USAGE)) None (Some "a.b") "x".
Definition user_key : Key :=
  mkKey (mkScope true (Block USAGE)) (Some "b") (Some "a") "x".

(** Two per-user keys of one placement, for two students. *)
Definition alice_key : Key :=
  mkKey (mkScope true (Block USAGE)) (Some "alice") (Some "0") "x".
Definition bob_key : Key :=
  mkKey (mkScope true (Block USAGE)) (Some "bob") (Some "0") "x".

(** A block type with fields of its own and one namespace, and two
    placements of the same definition for one student. *)
Definition thumbs : BlockClass :=
  mkBlockClass "thumbs"
    (list_to_map
       [("upvotes", ModelType.mk (mkScope false (Block USAGE)));
        ("voted", ModelType.mk (mkScope true (Block USAGE)));
        ("title", ModelType.mk (mkScope false (Block DEFINITION)));
        ("children", ModelType.mk (mkScope true CHILDREN))])
    (Some [("meta", mkNamespace
                      (list_to_map
                         [("tags", ModelType.mk (mkScope false (Block ALL)))]))]).

Definition overlay : DbModel.t :=
  DbModel.mk (Some "alice") thumbs (mkBlockId "0" "1").
Definition overlay2 : DbModel.t :=
  DbModel.mk (Some "alice") thumbs (mkBlockId "2" "1").

(** A caller's dictionary, the heap that holds it at reference [0], and
    keyword arguments. *)
Definition caller_dict : gmap string nat :=
  <["upvotes" := 1]> (<["voted" := 2]> ∅).
Definition caller_heap : gmap nat (gmap string nat) :=
  <[0 := caller_dict]> ∅.
Definition keywords : gmap string nat :=
  <["title" := 5]> ∅.

(** A recording backend around a fresh in-memory store. *)
Definition recorder : Recording.t (MemoryKeyValueStore.t nat) :=
  Recording.mk MemoryKeyValueStore.init [].

End Samples.

(** ** Block ids and the runtime system *)

Module BlockIds.

(** [new_block_id]: the store's counter [self._ids] yields two consecutive
    numbers, rendered in decimal by [str], for the usage id and then the
    definition id.  The counter is passed in and returned. *)
Definition new_block_id (_ids : nat) : BlockId * nat :=
  let usage := pretty _ids in
  let _ids := S _ids in
  let definition := pretty _ids in
  let _ids := S _ids in
  (mkBlockId usage definition, _ids).

End BlockIds.

Module RuntimeSystem.

(** [block_id = block_id or self._kv_store.new_block_id()]: a block id is a
    named tuple of two fields, which is never false; only [None] makes the
    store mint a new one. *)
Definition block_id_or_new (block_id : option BlockId) (_ids : nat)
    : BlockId * nat :=
  match block_id with
  | Some b => (b, _ids)
  | None => BlockIds.new_block_id _ids
  end.

(** [_provision_model]: the overlay over the system's store for the system's
    student. *)
Definition _provision_model (_student_id : option string)
    (block_cls : BlockClass) (block_id : BlockId) : DbModel.t :=
  DbModel.mk _student_id block_cls block_id.

(** The block id and the model that [create_block] provisions for a block
    class; finding the class from the tag and instantiating it are left to
    the [core] module. *)
Definition create_block_model (_student_id : option string)
    (block_cls : BlockClass) (block_id : option BlockId) (_ids : nat)
    : DbModel.t * nat :=
  let '(block_id, _ids) := block_id_or_new block_id _ids in
  (_provision_model _student_id block_cls block_id, _ids).

End RuntimeSystem.

(** The granularities whose block id is an id of the block itself: its
    usage id or its definition id. *)
Definition block_specific (g : Granularity) : bool :=
  match g with
  | Block ALL | Block TYPE => false
  | _ => true
  end.

(** ** Outcomes and token shapes *)

Definition is_ok {A : Type} (r : result A) : bool :=
  match r with
  | Ok _ => true
  | Raise _ => false
  end.

(** The slot a key names in the in-memory store: its bucket and its field
    name. *)
Definition slot (key : Key) : string * string :=
  (MemoryKeyValueStore.actual_key key, field_name key).

(** The text without its newlines, the characters on which no alternative
    of the lexer matches. *)
Fixpoint strip_newlines (text : string) : string :=
  match text with
  | EmptyString => EmptyString
  | String c rest =>
      if Ascii.eqb c "010" then strip_newlines rest
      else String c (strip_newlines rest)
  end.

Fixpoint all_word (s : string) : bool :=
  match s with
  | EmptyString => true
  | String c rest => is_word_char c && all_word rest
  end.

(** The token text is what the regex of the token's name matches. *)
Definition token_matches (tok : TokName * string) : bool :=
  match tok with
  | (dotdot, t) => bool_decide (t = "..")
  | (dot, t) => bool_decide (t = ".")
  | (slashslash, t) => bool_decide (t = "//")
  | (slash, t) => bool_decide (t = "/")
  | (atword, String c (String c' w)) =>
      Ascii.eqb c "@" && is_word_char c' && all_word w
  | (atword, _) => false
  | (word, String c w) => is_word_char c && all_word w
  | (word, EmptyString) => false
  | (err, String c EmptyString) =>
      negb (Ascii.eqb c "." || Ascii.eqb c "/" || Ascii.eqb c "010"
            || is_word_char c)
  | (err, _) => false
  end.

(** A character that can occur in no token but [err]. *)
Definition foreign_char (c : ascii) : bool :=
  negb (Ascii.eqb c "." || Ascii.eqb c "/" || Ascii.eqb c "@"
        || Ascii.eqb c "010" || is_word_char c).

Fixpoint occurs (c : ascii) (s : string) : bool :=
  match s with
  | EmptyString => false
  | String c' rest => Ascii.eqb c c' || occurs c rest
  end.

(** ** Sequences of operations on one overlay *)

Module Session.
Section Ops.
Context {Value S : Type} `{!KeyValueStore.Interface Value S}.

(** The calls a user makes on an overlay. *)
Inductive Op :=
  | OpGet (name : string)
  | OpSet (name : string) (value : Value)
  | OpDelete (name : string)
  | OpContains (name : string)
  | OpUpdate (other_dict : option nat) (kwargs : gmap string Value).

(** One call, on the store and the heap of dictionaries as they are; a call
    that raises leaves what it had changed before raising. *)
Definition run_op (self : DbModel.t) (op : Op)
    (st : S * gmap nat (gmap string Value))
    : S * gmap nat (gmap string Value) :=
  let '(kvs, heap) := st in
  match op with
  | OpGet name => (snd (DbModel.__getitem__ self name kvs), heap)
  | OpSet name value => (snd (DbModel.__setitem__ self name value kvs), heap)
  | OpDelete name => (snd (DbModel.__delitem__ self name kvs), heap)
  | OpContains name => (snd (DbModel.__contains__ self name kvs), heap)
  | OpUpdate other_dict kwargs =>
      let '(_, kvs', heap') :=
        DbModel.update self other_dict kwargs heap kvs in
      (kvs', heap')
  end.

Definition run_ops (self : DbModel.t) (ops : list Op)
    (st : S * gmap nat (gmap string Value))
    : S * gmap nat (gmap string Value) :=
  fold_left (fun st op => run_op self op st) ops st.

(** The value a call sets for the field [name], when it sets one: a [set] of
    that name, or an [update] whose names all resolve and whose mapping has
    the name. *)
Definition written (self : DbModel.t) (name : string) (op : Op)
    (st : S * gmap nat (gmap string Value)) : option Value :=
  match op with
  | OpSet name' value => if decide (name' = name) then Some value else None
  | OpUpdate other_dict kwargs =>
      let mapping :=
        kwargs ∪ from_option (DbModel.deref (snd st)) ∅ other_dict in
      if is_ok (DbModel.resolve_all self mapping) then mapping !! name
      else None
  | _ => None
  end.

(** The value last set for the field [name] by a sequence of calls that
    starts in state [st], [value] having been set before. *)
Fixpoint last_set (self : DbModel.t) (name : string) (value : Value)
    (ops : list Op) (st : S * gmap nat (gmap string Value)) : Value :=
  match ops with
  | [] => value
  | op :: rest =>
      last_set self name (default value (written self name op st)) rest
        (run_op self op st)
  end.

End Ops.
Arguments Op : clear implicits.
End Session.

(** ** Decimal numerals *)

Definition is_digit (c : ascii) : bool :=
  let n := nat_of_ascii c in ((48 <=? n) && (n <=? 57))%nat.

Fixpoint all_digits (s : string) : bool :=
  match s with
  | EmptyString => true
  | String c rest => is_digit c && all_digits rest
  end.

(** The number a string of digits denotes, with the weight of the position
    in front of it: each digit counts for its value times the power of ten
    of the digits that follow. *)
Fixpoint value_and_weight (s : string) : N * N :=
  match s with
  | EmptyString => (0, 1)%N
  | String c rest =>
      let '(v, w) := value_and_weight rest in
      ((N_of_ascii c - 48) * w + v, 10 * w)%N
  end.

Definition decimal_value (s : string) : N := fst (value_and_weight s).

(** [s] is the decimal numeral of [n]: digits only, denoting [n], and
    without a leading zero unless it is the numeral of zero. *)
Definition is_decimal_of (s : string) (n : nat) : Prop :=
  all_digits s = true /\
  decimal_value s = N.of_nat n /\
  (s = "0" \/ exists c rest, s = String c rest /\ c <> "0"%char).

(** ** The shape of the paths that resolve *)

Definition is_sep (t : TokName) : bool :=
  match t with
  | slash | slashslash => true
  | _ => false
  end.

(** The tokens after which a separator may come. *)
Definition is_node (t : TokName) : bool :=
  match t with
  | dot | dotdot | word => true
  | _ => false
  end.

(** Each token may follow its predecessor: a separator follows [.], [..] or
    a tag name; [.], [..], a tag name or an attribute follows a separator. *)
Fixpoint alternates (prev : TokName) (names : list TokName) : bool :=
  match names with
  | [] => true
  | t :: rest =>
      ((is_node prev && is_sep t)
       || (is_sep prev && (is_node t || bool_decide (t = atword))))
      && alternates t rest
  end.

(** The state in which [querypath] is after a token it accepted. *)
Definition state_after (t : TokName) : Runtime.State :=
  match t with
  | dot | dotdot | word => Runtime.WORD
  | slash | slashslash => Runtime.SEP
  | atword | err => Runtime.FINAL
  end.

Definition well_formed (names : list TokName) : bool :=
  match names with
  | [] => true
  | t :: rest =>
      (bool_decide (t = dot) || bool_decide (t = dotdot)) && alternates t rest
  end.

(** ** More sample data *)

Module Samples2.

(** The key of [upvotes] for [Samples.overlay], a store in which it has been
    set, and that store after the field was deleted again. *)
Definition upvotes_key : Key :=
  mkKey (mkScope false (Block USAGE)) None (Some "0") "upvotes".
Definition stored : MemoryKeyValueStore.t nat :=
  MemoryKeyValueStore.set MemoryKeyValueStore.init upvotes_key 3.
Definition emptied : MemoryKeyValueStore.t nat :=
  MemoryKeyValueStore.mk (<["usage.0" := ∅]> ∅).

(** Two overlays as [create_block] provisions them one after the other. *)
Definition first : DbModel.t :=
  fst (RuntimeSystem.create_block_model (Some "alice") Samples.thumbs None 0).
Definition second : DbModel.t :=
  fst (RuntimeSystem.create_block_model (Some "alice") Samples.thumbs None 2).

(** A mapping with a name that the block type does not declare. *)
Definition bad_dict : gmap string nat :=
  <["upvotes" := 1]> (<["nope" := 2]> ∅).
Definition bad_heap : gmap nat (gmap string nat) :=
  <[0 := bad_dict]> ∅.

(** A heap whose dictionary at reference [0] is empty. *)
Definition empty_heap : gmap nat (gmap string nat) :=
  <[0 := ∅]> ∅.

(** A dictionary of two keys for [set_many]. *)
Definition two_keys : gmap Key nat :=
  <[Samples.alice_key := 1]> (<[Samples.bob_key := 2]> ∅).

(** Calls made between a [set] of [upvotes] and a [get] of it. *)
Definition between : list (Session.Op nat) :=
  [Session.OpSet "voted" 9; Session.OpGet "title";
   Session.OpContains "nope"; Session.OpDelete "voted";
   Session.OpUpdate None (<["title" := 5]> ∅);
   Session.OpSet "upvotes" 4;
   Session.OpUpdate (Some 0) (<["voted" := 1]> ∅);
   Session.OpDelete "title"].

End Samples2.

(** * Properties *)

(** ** Key derivation *)

Section KeyDerivation.
Import DbModel.

Lemma _key_of_field (self : DbModel.t) (name : string) (field : ModelType.t) :
  _getfield self name = Ok field ->
  exists student block_id,
    _key self name = Ok (mkKey (ModelType.scope field) student block_id name).
Proof.
  intros Hf. unfold _key. rewrite Hf. cbn.
  destruct (granularity (ModelType.scope field)) as [b| |]; cbn; eauto.
Qed.

Lemma _key_field_name (self : DbModel.t) (name : string) (key : Key) :
  _key self name = Ok key -> field_name key = name.
Proof.
  unfold _key. destruct (_getfield self name) as [field|e]; cbn; [|discriminate].
  destruct (granularity (ModelType.scope field)) as [b| |]; cbn;
    intros [= <-]; reflexivity.
Qed.

Lemma _key_scope (self : DbModel.t) (name : string) (field : ModelType.t)
    (key : Key) :
  _getfield self name = Ok field -> _key self name = Ok key ->
  scope key = ModelType.scope field.
Proof.
  intros Hf. unfold _key. rewrite Hf. cbn.
  destruct (granularity (ModelType.scope field)) as [b| |]; cbn;
    intros [= <-]; reflexivity.
Qed.

Lemma _key_raises (self : DbModel.t) (name : string) (e : PyExn) :
  _getfield self name = Raise e -> _key self name = Raise e.
Proof. intros Hf. unfold _key. rewrite Hf. reflexivity. Qed.

End KeyDerivation.

(** C1: two declared fields that differ in name, in scope granularity or in
    the per-user flag get distinct storage keys from [_key], whatever the
    block identities, types and users of the two overlays; and the key is a
    function of the name, the field, the block identity, the type name and
    the acting user alone. *)
Theorem key_distinct_and_deterministic
    (m1 m2 : DbModel.t) (n1 n2 : string) (f1 f2 : ModelType.t) :
  DbModel._getfield m1 n1 = Ok f1 ->
  DbModel._getfield m2 n2 = Ok f2 ->
  exists k1 k2,
    DbModel._key m1 n1 = Ok k1 /\ DbModel._key m2 n2 = Ok k2 /\
    (n1 <> n2 \/
     granularity (ModelType.scope f1) <> granularity (ModelType.scope f2) \/
     user (ModelType.scope f1) <> user (ModelType.scope f2) ->
     k1 <> k2) /\
    (n1 = n2 -> f1 = f2 ->
     DbModel._block_id m1 = DbModel._block_id m2 ->
     __name__ (DbModel._block_cls m1) = __name__ (DbModel._block_cls m2) ->
     DbModel._student_id m1 = DbModel._student_id m2 ->
     k1 = k2).
Proof.
  intros H1 H2.
  destruct (_key_of_field _ _ _ H1) as (s1 & b1 & E1).
  destruct (_key_of_field _ _ _ H2) as (s2 & b2 & E2).
  rewrite E1, E2. do 2 eexists. split; [reflexivity|]. split; [reflexivity|].
  split.
  - intros Hd Hk. injection Hk as Hs _ _ Hn.
    destruct Hd as [Hd | [Hd | Hd]]; apply Hd; congruence.
  - intros -> -> Hb Hc Hu. revert E1 E2.
    unfold DbModel._key. rewrite H1, H2. cbn. rewrite Hb, Hc, Hu.
    intros E1 E2. congruence.
Qed.

Lemma key_distinct_and_deterministic_witness :
  exists k1 k2,
    DbModel._key Samples.overlay "upvotes" = Ok k1 /\
    DbModel._key Samples.overlay2 "voted" = Ok k2 /\
    ("upvotes" <> "voted" \/
     granularity (mkScope false (Block USAGE))
       <> granularity (mkScope true (Block USAGE)) \/
     user (mkScope false (Block USAGE)) <> user (mkScope true (Block USAGE)) ->
     k1 <> k2) /\
    ("upvotes" = "voted" ->
     ModelType.mk (mkScope false (Block USAGE))
       = ModelType.mk (mkScope true (Block USAGE)) ->
     DbModel._block_id Samples.overlay = DbModel._block_id Samples.overlay2 ->
     __name__ (DbModel._block_cls Samples.overlay)
       = __name__ (DbModel._block_cls Samples.overlay2) ->
     DbModel._student_id Samples.overlay
       = DbModel._student_id Samples.overlay2 ->
     k1 = k2).
Proof.
  apply (key_distinct_and_deterministic Samples.overlay Samples.overlay2
           "upvotes" "voted"
           (ModelType.mk (mkScope false (Block USAGE)))
           (ModelType.mk (mkScope true (Block USAGE)))).
  - vm_compute. reflexivity.
  - vm_compute. reflexivity.
Defined.

(** C4: for a field whose granularity is CHILDREN or PARENT, [_key] puts the
    block's usage id in [block_scope_id] and no user in [student_id],
    whatever the per-user flag of the field's scope. *)
Theorem tree_scope_key (self : DbModel.t) (name : string) (field : ModelType.t) :
  DbModel._getfield self name = Ok field ->
  granularity (ModelType.scope field) = CHILDREN \/
  granularity (ModelType.scope field) = PARENT ->
  DbModel._key self name =
    Ok (mkKey (ModelType.scope field) None
              (Some (usage_id (DbModel._block_id self))) name).
Proof.
  intros Hf Hg. unfold DbModel._key. rewrite Hf. cbn.
  destruct Hg as [-> | ->]; reflexivity.
Qed.

Lemma tree_scope_key_witness :
  DbModel._key Samples.overlay "children" =
    Ok (mkKey (mkScope true CHILDREN) None (Some "0") "children").
Proof.
  apply (tree_scope_key Samples.overlay "children"
           (ModelType.mk (mkScope true CHILDREN))).
  - vm_compute. reflexivity.
  - left. reflexivity.
Defined.

(** C5: for two block identities that differ in their usage id, a field of
    USAGE granularity gets distinct keys; a field of DEFINITION granularity
    gets the same key when the definition ids are equal. *)
Theorem usage_and_definition_keys
    (student : option string) (cls : BlockClass) (b1 b2 : BlockId)
    (name : string) (field : ModelType.t) :
  DbModel._getfield (DbModel.mk student cls b1) name = Ok field ->
  usage_id b1 <> usage_id b2 ->
  def_id b1 = def_id b2 ->
  exists k1 k2,
    DbModel._key (DbModel.mk student cls b1) name = Ok k1 /\
    DbModel._key (DbModel.mk student cls b2) name = Ok k2 /\
    (granularity (ModelType.scope field) = Block USAGE -> k1 <> k2) /\
    (granularity (ModelType.scope field) = Block DEFINITION -> k1 = k2).
Proof.
  intros Hf Hu Hd.
  assert (Hf2 : DbModel._getfield (DbModel.mk student cls b2) name = Ok field)
    by exact Hf.
  unfold DbModel._key. rewrite Hf, Hf2. cbn.
  destruct (granularity (ModelType.scope field)) as [[]| |] eqn:Hg; cbn;
    do 2 eexists; (split; [reflexivity|]); (split; [reflexivity|]);
    split; try discriminate; try congruence.
Qed.

Lemma usage_and_definition_keys_witness :
  exists k1 k2,
    DbModel._key Samples.overlay "title" = Ok k1 /\
    DbModel._key Samples.overlay2 "title" = Ok k2 /\
    (granularity (mkScope false (Block DEFINITION)) = Block USAGE -> k1 <> k2) /\
    (granularity (mkScope false (Block DEFINITION)) = Block DEFINITION ->
     k1 = k2).
Proof.
  apply (usage_and_definition_keys (Some "alice") Samples.thumbs
           (mkBlockId "0" "1") (mkBlockId "2" "1") "title"
           (ModelType.mk (mkScope false (Block DEFINITION)))).
  - vm_compute. reflexivity.
  - cbn. discriminate.
  - reflexivity.
Defined.

(** ** The in-memory store *)

Section MemoryStore.
Context {Value : Type}.
Implicit Types (self : MemoryKeyValueStore.t Value) (key : Key).

Lemma has_missing_bucket self key :
  MemoryKeyValueStore.d self !! MemoryKeyValueStore.actual_key key = None ->
  MemoryKeyValueStore.has self key
  = Raise (KeyError (MemoryKeyValueStore.actual_key key)).
Proof. intros H. unfold MemoryKeyValueStore.has. rewrite H. reflexivity. Qed.

Lemma has_present_bucket self key bucket :
  MemoryKeyValueStore.d self !! MemoryKeyValueStore.actual_key key
  = Some bucket ->
  MemoryKeyValueStore.has self key
  = Ok (bool_decide (is_Some (bucket !! field_name key))).
Proof. intros H. unfold MemoryKeyValueStore.has. rewrite H. reflexivity. Qed.

Lemma get_set_same self key (value : Value) :
  MemoryKeyValueStore.get (MemoryKeyValueStore.set self key value) key
  = Ok value.
Proof.
  unfold MemoryKeyValueStore.get, MemoryKeyValueStore.set. cbn.
  rewrite lookup_insert_eq, lookup_insert_eq. reflexivity.
Qed.

(** A write leaves what was readable in another slot readable. *)
Lemma get_set_other self key key' (value v : Value) :
  (MemoryKeyValueStore.actual_key key', field_name key')
  <> (MemoryKeyValueStore.actual_key key, field_name key) ->
  MemoryKeyValueStore.get self key' = Ok v ->
  MemoryKeyValueStore.get (MemoryKeyValueStore.set self key value) key' = Ok v.
Proof.
  intros Hne. unfold MemoryKeyValueStore.get, MemoryKeyValueStore.set. cbn.
  destruct (decide (MemoryKeyValueStore.actual_key key
                    = MemoryKeyValueStore.actual_key key')) as [Ha | Ha].
  - rewrite <- Ha, lookup_insert_eq.
    destruct (MemoryKeyValueStore.d self !! MemoryKeyValueStore.actual_key key)
      as [bucket|]; [|discriminate]. cbn.
    rewrite lookup_insert_ne; [trivial|]. intros Hn. apply Hne. congruence.
  - rewrite lookup_insert_ne by exact Ha. trivial.
Qed.

End MemoryStore.

(** C3: [has] on a fresh store, where nothing was ever stored under the
    key's bucket, raises [KeyError] with the bucket string; it does not
    return false. *)
Theorem has_on_fresh_store_raises (Value : Type) :
  MemoryKeyValueStore.has (@MemoryKeyValueStore.init Value) Samples.usage_key
  = Raise (KeyError "usage.0").
Proof. reflexivity. Qed.

(** ** The overlay and undeclared names *)

Section Undeclared.
Context {Value S : Type} `{!KeyValueStore.Interface Value S}.

Lemma resolve_in_namespaces_none (nss : list (string * Namespace))
    (name : string) :
  (forall nsname ns, (nsname, ns) ∈ nss -> namespace_fields ns !! name = None) ->
  DbModel.resolve_in_namespaces nss name = None.
Proof.
  induction nss as [|[nsname ns] rest IH]; intros Hall; cbn; [reflexivity|].
  rewrite (Hall nsname ns) by apply list_elem_of_here.
  apply IH. intros n' ns' Hin. apply (Hall n' ns'). by apply list_elem_of_further.
Qed.

Lemma _getfield_undeclared (self : DbModel.t) (name : string) :
  class_fields (DbModel._block_cls self) !! name = None ->
  (forall nss nsname ns,
     namespaces (DbModel._block_cls self) = Some nss ->
     (nsname, ns) ∈ nss -> namespace_fields ns !! name = None) ->
  DbModel._getfield self name = Raise (KeyError name).
Proof.
  intros Hc Hn. unfold DbModel._getfield. rewrite Hc.
  destruct (namespaces (DbModel._block_cls self)) as [nss|] eqn:E;
    [|reflexivity].
  rewrite resolve_in_namespaces_none; [reflexivity|].
  intros nsname ns. by apply Hn.
Qed.

End Undeclared.

(** C7: for a name that is a field neither of the block type nor of any of
    its namespaces, [get], [set] and [delete] on the overlay raise the
    [KeyError] of the lookup and leave the backend untouched, and
    [contains] returns false. *)
Theorem undeclared_name_raises_but_not_in_contains
    {Value S : Type} `{!KeyValueStore.Interface Value S}
    (self : DbModel.t) (name : string) (value : Value) (kvs : S) :
  class_fields (DbModel._block_cls self) !! name = None ->
  (forall nss nsname ns,
     namespaces (DbModel._block_cls self) = Some nss ->
     (nsname, ns) ∈ nss -> namespace_fields ns !! name = None) ->
  DbModel.__getitem__ self name kvs = (Raise (KeyError name), kvs) /\
  DbModel.__setitem__ self name value kvs = (Raise (KeyError name), kvs) /\
  DbModel.__delitem__ self name kvs = (Raise (KeyError name), kvs) /\
  DbModel.__contains__ self name kvs = (Ok false, kvs).
Proof.
  intros Hc Hn.
  pose proof (_key_raises _ _ _ (_getfield_undeclared self name Hc Hn)) as Hk.
  unfold DbModel.__getitem__, DbModel.__setitem__, DbModel.__delitem__,
    DbModel.__contains__.
  rewrite Hk. repeat split; reflexivity.
Qed.

Lemma undeclared_name_raises_but_not_in_contains_witness :
  DbModel.__getitem__ Samples.overlay "nope" (@MemoryKeyValueStore.init nat)
  = (Raise (KeyError "nope"), MemoryKeyValueStore.init) /\
  DbModel.__setitem__ Samples.overlay "nope" 7 (@MemoryKeyValueStore.init nat)
  = (Raise (KeyError "nope"), MemoryKeyValueStore.init) /\
  DbModel.__delitem__ Samples.overlay "nope" (@MemoryKeyValueStore.init nat)
  = (Raise (KeyError "nope"), MemoryKeyValueStore.init) /\
  DbModel.__contains__ Samples.overlay "nope" (@MemoryKeyValueStore.init nat)
  = (Ok false, MemoryKeyValueStore.init).
Proof.
  apply (undeclared_name_raises_but_not_in_contains
           Samples.overlay "nope" 7 (@MemoryKeyValueStore.init nat)).
  - vm_compute. reflexivity.
  - intros nss nsname ns [= <-] Hin.
    apply list_elem_of_singleton in Hin. injection Hin as _ ->.
    vm_compute. reflexivity.
Defined.

(** ** Bucket strings *)

Section Buckets.
Import MemoryKeyValueStore.

Lemma append_cons (c : ascii) (a b : string) :
  String c a +:+ b = String c (a +:+ b).
Proof. reflexivity. Qed.

Lemma append_empty_r (a : string) : a +:+ EmptyString = a.
Proof.
  induction a as [|c a IH]; [reflexivity|].
  rewrite append_cons, IH. reflexivity.
Qed.

Lemma concat_suffix (t : string) (parts : list string) :
  String.concat "." (t :: parts) = t +:+ suffix parts.
Proof.
  revert t. induction parts as [|x parts IH]; intros t.
  - cbn. symmetry. apply append_empty_r.
  - change (String.concat "." (t :: x :: parts))
      with (t +:+ String "." (String.concat "." (x :: parts))).
    rewrite IH. reflexivity.
Qed.

Lemma dotted_suffix (parts : list string) : dotted (suffix parts).
Proof. destruct parts; [left | right; eexists]; reflexivity. Qed.

(** A separator-free head is determined by the joined string. *)
Lemma head_split (a b sa sb : string) :
  no_dot a = true -> no_dot b = true -> dotted sa -> dotted sb ->
  a +:+ sa = b +:+ sb -> a = b /\ sa = sb.
Proof.
  revert b. induction a as [|c a IH]; intros [|c' b] Ha Hb Hsa Hsb.
  - intros E. split; [reflexivity | exact E].
  - change (EmptyString +:+ sa) with sa. rewrite append_cons. intros ->.
    destruct Hsa as [? | [x [= -> _]]]; [discriminate|].
    cbn in Hb. discriminate.
  - change (EmptyString +:+ sb) with sb. rewrite append_cons. intros <-.
    destruct Hsb as [? | [x [= -> _]]]; [discriminate|].
    cbn in Ha. discriminate.
  - rewrite !append_cons. intros [= -> E].
    cbn in Ha, Hb. apply andb_prop in Ha as [_ Ha], Hb as [_ Hb].
    destruct (IH b Ha Hb Hsa Hsb E) as [-> ->]. split; reflexivity.
Qed.

Lemma actual_key_split (key : Key) :
  actual_key key = tag_of (granularity (scope key)) +:+ suffix (id_parts key).
Proof.
  unfold MemoryKeyValueStore.actual_key, MemoryKeyValueStore.actual_key_parts,
    id_parts, tag_of.
  rewrite <- concat_suffix. f_equal.
  destruct (block_scope_id key), (MemoryKeyValueStore.truthy (student_id key));
    destruct (granularity (scope key)); reflexivity.
Qed.

Lemma no_dot_tag (g : Granularity) : no_dot (tag_of g) = true.
Proof. destruct g as [[]| |]; reflexivity. Qed.

Lemma tag_of_inj (g1 g2 : Granularity) : tag_of g1 = tag_of g2 -> g1 = g2.
Proof.
  destruct g1 as [[]| |], g2 as [[]| |]; vm_compute; congruence.
Qed.

Lemma student_part_inj (u1 u2 : option string) :
  u1 <> Some EmptyString -> u2 <> Some EmptyString ->
  suffix (if MemoryKeyValueStore.truthy u1
          then [default EmptyString u1] else [])
  = suffix (if MemoryKeyValueStore.truthy u2
            then [default EmptyString u2] else []) ->
  u1 = u2.
Proof.
  intros H1 H2. unfold MemoryKeyValueStore.truthy.
  destruct u1 as [s1|], u2 as [s2|]; repeat case_bool_decide; subst; cbn;
    try congruence; try discriminate.
  rewrite !append_empty_r. congruence.
Qed.

Lemma id_parts_inj (k1 k2 : Key) :
  plain_ids k1 -> plain_ids k2 ->
  (block_scope_id k1 = None <-> block_scope_id k2 = None) ->
  suffix (id_parts k1) = suffix (id_parts k2) ->
  block_scope_id k1 = block_scope_id k2 /\ student_id k1 = student_id k2.
Proof.
  intros [Hb1 Hu1] [Hb2 Hu2] Hsame. unfold id_parts.
  destruct (block_scope_id k1) as [i1|], (block_scope_id k2) as [i2|].
  - cbn [app suffix foldr]. intros [= E].
    apply head_split in E as [-> E];
      [| by apply Hb1 | by apply Hb2 | apply dotted_suffix..].
    split; [reflexivity|]. by apply student_part_inj.
  - destruct Hsame as [_ Hsame]. specialize (Hsame eq_refl). discriminate.
  - destruct Hsame as [Hsame _]. specialize (Hsame eq_refl). discriminate.
  - cbn [app]. intros E. split; [reflexivity|]. by apply student_part_inj.
Qed.

End Buckets.

(** C6, as the code has it: [actual_key] gives distinct bucket strings to
    two keys of different granularity, whatever their identifiers; and to
    two keys that differ in block id or student id when both have a block id
    or neither has, no block id contains the separator and no student id is
    the empty string. *)
Theorem actual_key_distinct (k1 k2 : Key) :
  granularity (scope k1) <> granularity (scope k2) \/
  (plain_ids k1 /\ plain_ids k2 /\
   (block_scope_id k1 = None <-> block_scope_id k2 = None) /\
   (block_scope_id k1 <> block_scope_id k2 \/
    student_id k1 <> student_id k2)) ->
  MemoryKeyValueStore.actual_key k1 <> MemoryKeyValueStore.actual_key k2.
Proof.
  intros Hd E. rewrite !actual_key_split in E.
  apply head_split in E as [Ht Es];
    [| apply no_dot_tag | apply no_dot_tag
     | apply dotted_suffix | apply dotted_suffix].
  apply tag_of_inj in Ht.
  destruct Hd as [Hg | (Hp1 & Hp2 & Hsame & Hne)]; [by apply Hg|].
  destruct (id_parts_inj k1 k2 Hp1 Hp2 Hsame Es) as [Hb Hu].
  destruct Hne as [Hne | Hne]; by apply Hne.
Qed.

Lemma actual_key_distinct_witness :
  MemoryKeyValueStore.actual_key Samples.alice_key
  <> MemoryKeyValueStore.actual_key Samples.bob_key.
Proof.
  apply (actual_key_distinct Samples.alice_key Samples.bob_key).
  right. repeat split; try discriminate.
  - intros i [= <-]. reflexivity.
  - intros i [= <-]. reflexivity.
  - right. discriminate.
Defined.

(** C6, as stated, fails: two keys with different block ids and different
    student ids share the bucket [usage.a.b]. *)
Lemma actual_key_collision :
  block_scope_id Samples.dotted_key <> block_scope_id Samples.user_key /\
  student_id Samples.dotted_key <> student_id Samples.user_key /\
  MemoryKeyValueStore.actual_key Samples.dotted_key
  = MemoryKeyValueStore.actual_key Samples.user_key.
Proof. repeat split; discriminate. Qed.

(** ** Batched updates *)

Section Update.
Context {Value : Type}.
Implicit Types (self : DbModel.t) (store : MemoryKeyValueStore.t Value).

(** When every name resolves, the loop of [update] yields the dictionary
    that maps the key of each name to the name's value. *)
Lemma resolve_all_ok self (mapping : gmap string Value) :
  (forall name, is_Some (mapping !! name) ->
     exists key, DbModel._key self name = Ok key) ->
  exists updated_dict,
    DbModel.resolve_all self mapping = Ok updated_dict /\
    forall key v,
      updated_dict !! key = Some v <->
      exists name, mapping !! name = Some v /\ DbModel._key self name = Ok key.
Proof.
  unfold DbModel.resolve_all.
  apply (map_fold_weak_ind (fun r (m : gmap string Value) =>
    (forall name, is_Some (m !! name) ->
       exists key, DbModel._key self name = Ok key) ->
    exists updated_dict,
      r = Ok updated_dict /\
      forall key v,
        updated_dict !! key = Some v <->
        exists name, m !! name = Some v /\ DbModel._key self name = Ok key)).
  - intros _. exists ∅. split; [reflexivity|]. intros key v.
    rewrite lookup_empty. split; [discriminate|].
    intros (name & Hn & _). rewrite lookup_empty in Hn. discriminate.
  - intros i x m r Hi IH Hall.
    destruct IH as (ud & -> & Hud).
    { intros name Hn. apply Hall. rewrite lookup_insert_ne; [exact Hn|].
      intros <-. rewrite Hi in Hn. by destruct Hn. }
    destruct (Hall i) as [k Hk]; [rewrite lookup_insert_eq; eauto|].
    cbn. rewrite Hk. cbn. eexists. split; [reflexivity|].
    intros key v. destruct (decide (k = key)) as [<- | Hne].
    + rewrite lookup_insert_eq. split.
      * intros [= <-]. exists i. rewrite lookup_insert_eq. auto.
      * intros (name & Hn & Hkn).
        assert (name = i) as ->.
        { apply _key_field_name in Hk, Hkn. congruence. }
        rewrite lookup_insert_eq in Hn. exact Hn.
    + rewrite lookup_insert_ne by exact Hne. rewrite Hud. split.
      * intros (name & Hn & Hkn). exists name. split; [|exact Hkn].
        rewrite lookup_insert_ne; [exact Hn|]. intros <-. congruence.
      * intros (name & Hn & Hkn). exists name. split; [|exact Hkn].
        rewrite lookup_insert_ne in Hn; [exact Hn|]. intros <-. congruence.
Qed.

(** After [set_many], every entry of the dictionary can be read back, when no
    two of its keys name the same slot of the same bucket. *)
Lemma set_many_get store (update_dict : gmap Key Value) :
  (forall k1 k2, is_Some (update_dict !! k1) -> is_Some (update_dict !! k2) ->
     MemoryKeyValueStore.actual_key k1 = MemoryKeyValueStore.actual_key k2 ->
     field_name k1 = field_name k2 -> k1 = k2) ->
  forall key v, update_dict !! key = Some v ->
    MemoryKeyValueStore.get (MemoryKeyValueStore.set_many store update_dict) key
    = Ok v.
Proof.
  unfold MemoryKeyValueStore.set_many.
  apply (map_fold_weak_ind (fun r (m : gmap Key Value) =>
    (forall k1 k2, is_Some (m !! k1) -> is_Some (m !! k2) ->
       MemoryKeyValueStore.actual_key k1 = MemoryKeyValueStore.actual_key k2 ->
       field_name k1 = field_name k2 -> k1 = k2) ->
    forall key v, m !! key = Some v -> MemoryKeyValueStore.get r key = Ok v)).
  - intros _ key v Hk. rewrite lookup_empty in Hk. discriminate.
  - intros i x m r Hi IH Hinj key v Hk.
    destruct (decide (i = key)) as [<- | Hne].
    + rewrite lookup_insert_eq in Hk. injection Hk as <-. apply get_set_same.
    + rewrite lookup_insert_ne in Hk by exact Hne.
      apply get_set_other.
      * intros [= Ha Hf]. apply Hne. symmetry. apply Hinj; try assumption.
        -- rewrite lookup_insert_ne by exact Hne. eauto.
        -- rewrite lookup_insert_eq. eauto.
      * apply IH; [|exact Hk]. intros k1 k2 H1 H2. apply Hinj.
        -- rewrite lookup_insert_ne; [exact H1|]. intros <-.
           rewrite Hi in H1. by destruct H1.
        -- rewrite lookup_insert_ne; [exact H2|]. intros <-.
           rewrite Hi in H2. by destruct H2.
Qed.

End Update.

Section UpdateHeap.
Context {Value S : Type} `{!KeyValueStore.Interface Value S}.

Lemma deref_insert (heap : gmap nat (gmap string Value)) (l : nat)
    (dict : gmap string Value) :
  DbModel.deref (<[l := dict]> heap) l = dict.
Proof. unfold DbModel.deref. rewrite lookup_insert_eq. reflexivity. Qed.

(** The dictionary that [update] ends up iterating: the keyword arguments
    laid over the caller's dictionary. *)
Lemma update_unfold (self : DbModel.t) (other_dict : option nat)
    (kwargs : gmap string Value) (heap : gmap nat (gmap string Value))
    (kvs : S) :
  exists heap',
    DbModel.update self other_dict kwargs heap kvs =
      match DbModel.resolve_all self
              (kwargs ∪ from_option (DbModel.deref heap) ∅ other_dict) with
      | Ok updated_dict => (KeyValueStore.set_many kvs updated_dict, heap')
      | Raise e => (Raise e, kvs, heap')
      end /\
    forall l d, other_dict = Some l -> heap !! l = Some d -> d <> ∅ ->
      heap' = <[l := kwargs ∪ d]> heap.
Proof.
  unfold DbModel.update.
  destruct other_dict as [l|]; cbn [from_option].
  - destruct (decide (DbModel.deref heap l = ∅)) as [He | Hne].
    + unfold DbModel.alloc. cbv zeta. rewrite !deref_insert, He.
      eexists. split; [reflexivity|].
      intros l' d [= <-] Hd Hne. unfold DbModel.deref in He.
      rewrite Hd in He. cbn in He. congruence.
    + cbv zeta. rewrite !deref_insert.
      eexists. split; [reflexivity|].
      intros l' d [= <-] Hd _. unfold DbModel.deref. rewrite Hd. reflexivity.
  - unfold DbModel.alloc. cbv zeta. rewrite !deref_insert.
    eexists. split; [reflexivity|].
    intros l d [=].
Qed.

End UpdateHeap.

(** C9: on an overlay whose backend records its calls in front of the
    in-memory store, [update] with a mapping of declared names resolves each
    name to its key, makes one call to the backend, a [set_many] with the
    resolved dictionary, and afterwards [get] on each name of the mapping
    returns the value the mapping gave it. *)
Theorem update_is_one_set_many {Value : Type}
    (self : DbModel.t) (other_dict : option nat) (kwargs : gmap string Value)
    (heap : gmap nat (gmap string Value))
    (kvs : Recording.t (MemoryKeyValueStore.t Value)) :
  let mapping := kwargs ∪ from_option (DbModel.deref heap) ∅ other_dict in
  (forall name, is_Some (mapping !! name) ->
     exists field, DbModel._getfield self name = Ok field) ->
  exists updated_dict heap',
    (forall name v, mapping !! name = Some v ->
       exists key, DbModel._key self name = Ok key /\
                   updated_dict !! key = Some v) /\
    DbModel.update self other_dict kwargs heap kvs
    = (Ok tt,
       Recording.mk
         (MemoryKeyValueStore.set_many (Recording.inner kvs) updated_dict)
         (Recording.calls kvs ++ [Recording.CallSetMany]),
       heap') /\
    forall name v, mapping !! name = Some v ->
      fst (DbModel.__getitem__ self name
             (snd (fst (DbModel.update self other_dict kwargs heap kvs))))
      = Ok v.
Proof.
  intros mapping Hdecl.
  assert (Hkeys : forall name, is_Some (mapping !! name) ->
                    exists key, DbModel._key self name = Ok key).
  { intros name Hn. destruct (Hdecl name Hn) as [field Hf].
    destruct (_key_of_field _ _ _ Hf) as (s & b & Hk). eauto. }
  destruct (resolve_all_ok self mapping Hkeys) as (ud & Hres & Hud).
  destruct (update_unfold self other_dict kwargs heap kvs) as (heap' & Hu & _).
  fold mapping in Hu. rewrite Hres in Hu.
  assert (Hin : forall name v, mapping !! name = Some v ->
            exists key, DbModel._key self name = Ok key /\
                        ud !! key = Some v).
  { intros name v Hn. destruct (Hkeys name) as [key Hk]; [eauto|].
    exists key. split; [exact Hk|]. apply Hud. eauto. }
  exists ud, heap'. split; [exact Hin|]. split; [exact Hu|].
  intros name v Hn. rewrite Hu. cbn.
  destruct (Hin name v Hn) as (key & Hk & Hv).
  unfold DbModel.__getitem__. rewrite Hk. cbn.
  apply set_many_get; [|exact Hv].
  intros k1 k2 [v1 H1] [v2 H2] _ Hf.
  apply Hud in H1 as (n1 & _ & Hk1), H2 as (n2 & _ & Hk2).
  pose proof (_key_field_name _ _ _ Hk1). pose proof (_key_field_name _ _ _ Hk2).
  congruence.
Qed.

Lemma update_is_one_set_many_witness :
  exists updated_dict heap',
    (forall name v,
       (Samples.keywords ∪ from_option (DbModel.deref Samples.caller_heap) ∅
                             (Some 0)) !! name = Some v ->
       exists key, DbModel._key Samples.overlay name = Ok key /\
                   updated_dict !! key = Some v) /\
    DbModel.update Samples.overlay (Some 0) Samples.keywords
      Samples.caller_heap Samples.recorder
    = (Ok tt,
       Recording.mk
         (MemoryKeyValueStore.set_many
            (Recording.inner Samples.recorder) updated_dict)
         (Recording.calls Samples.recorder ++ [Recording.CallSetMany]),
       heap') /\
    forall name v,
      (Samples.keywords ∪ from_option (DbModel.deref Samples.caller_heap) ∅
                            (Some 0)) !! name = Some v ->
      fst (DbModel.__getitem__ Samples.overlay name
             (snd (fst (DbModel.update Samples.overlay (Some 0)
                          Samples.keywords Samples.caller_heap
                          Samples.recorder))))
      = Ok v.
Proof.
  apply (update_is_one_set_many Samples.overlay (Some 0) Samples.keywords
           Samples.caller_heap Samples.recorder).
  intros name [v Hv]. cbn [from_option] in Hv.
  unfold Samples.keywords, Samples.caller_heap in Hv.
  rewrite deref_insert in Hv. unfold Samples.caller_dict in Hv.
  apply lookup_union_Some_raw in Hv as [Hv | [_ Hv]].
  - apply lookup_insert_Some in Hv as [[<- _] | [_ Hv]];
      [eexists; vm_compute; reflexivity|].
    rewrite lookup_empty in Hv. discriminate.
  - apply lookup_insert_Some in Hv as [[<- _] | [_ Hv]];
      [eexists; vm_compute; reflexivity|].
    apply lookup_insert_Some in Hv as [[<- _] | [_ Hv]];
      [eexists; vm_compute; reflexivity|].
    rewrite lookup_empty in Hv. discriminate.
Defined.

(** C10: when [update] is given a reference to a non-empty dictionary, the
    keyword arguments are written into that very dictionary: after the call,
    whether it raised or not, the caller's reference holds the keyword
    arguments laid over the old contents, every keyword entry is in it, the
    other dictionaries of the heap are as before, and the dictionary has
    changed whenever a keyword entry was not already in it. *)
Theorem update_mutates_caller_dict
    {Value S : Type} `{!KeyValueStore.Interface Value S}
    (self : DbModel.t) (l : nat) (d kwargs : gmap string Value)
    (heap : gmap nat (gmap string Value)) (kvs : S) :
  heap !! l = Some d -> d <> ∅ ->
  let heap' := snd (DbModel.update self (Some l) kwargs heap kvs) in
  heap' !! l = Some (kwargs ∪ d) /\
  (forall k v, kwargs !! k = Some v -> DbModel.deref heap' l !! k = Some v) /\
  (forall l', l' <> l -> heap' !! l' = heap !! l') /\
  ((exists k v, kwargs !! k = Some v /\ d !! k <> Some v) ->
   heap' !! l <> heap !! l).
Proof.
  intros Hd Hne heap'.
  destruct (update_unfold self (Some l) kwargs heap kvs) as (h & Hu & Hh).
  specialize (Hh l d eq_refl Hd Hne).
  assert (Hheap : heap' = <[l := kwargs ∪ d]> heap).
  { subst heap'. rewrite Hu.
    destruct (DbModel.resolve_all self _); cbn; exact Hh. }
  rewrite Hheap. split; [apply lookup_insert_eq|]. split; [|split].
  - intros k v Hk. rewrite deref_insert. by apply lookup_union_Some_l.
  - intros l' Hl. by rewrite lookup_insert_ne.
  - intros (k & v & Hk & Hdk). rewrite lookup_insert_eq, Hd. intros [= E].
    apply Hdk. rewrite <- E. by apply lookup_union_Some_l.
Qed.

Lemma update_mutates_caller_dict_witness :
  let heap' := snd (DbModel.update Samples.overlay (Some 0) Samples.keywords
                      Samples.caller_heap Samples.recorder) in
  heap' !! 0 = Some (Samples.keywords ∪ Samples.caller_dict) /\
  (forall k v, Samples.keywords !! k = Some v ->
     DbModel.deref heap' 0 !! k = Some v) /\
  (forall l', l' <> 0 -> heap' !! l' = Samples.caller_heap !! l') /\
  ((exists k v, Samples.keywords !! k = Some v /\
                Samples.caller_dict !! k <> Some v) ->
   heap' !! 0 <> Samples.caller_heap !! 0).
Proof.
  apply (update_mutates_caller_dict Samples.overlay 0 Samples.caller_dict
           Samples.keywords Samples.caller_heap Samples.recorder).
  - apply lookup_insert_eq.
  - unfold Samples.caller_dict. apply insert_non_empty.
Defined.

(** ** Path queries *)

Section Paths.
Context {Q : Type} `{!Runtime.Query Q}.

(** Every round of the lexer consumes a character: more fuel than the length
    of the text changes nothing. *)
Lemma take_word_length (text w rest : string) :
  take_word text = (w, rest) ->
  String.length text = String.length w + String.length rest.
Proof.
  revert w rest. induction text as [|c text IH]; intros w rest; cbn.
  - intros [= <- <-]. reflexivity.
  - destruct (is_word_char c).
    + destruct (take_word text) as [w' rest'] eqn:E. intros [= <- <-].
      cbn. rewrite (IH w' rest' eq_refl). reflexivity.
    + intros [= <- <-]. reflexivity.
Qed.

Lemma match_token_shorter (text rest : string) (tokname : TokName)
    (toktext : string) :
  match_token text = Some (tokname, toktext, rest) ->
  String.length rest < String.length text.
Proof.
  destruct text as [|c text]; [discriminate|]. cbn [match_token].
  destruct (Ascii.eqb c ".").
  { destruct text as [|c' text']; [intros [= _ _ <-]; cbn; lia|].
    destruct (Ascii.eqb c' "."); intros [= _ _ <-]; cbn; lia. }
  destruct (Ascii.eqb c "/").
  { destruct text as [|c' text']; [intros [= _ _ <-]; cbn; lia|].
    destruct (Ascii.eqb c' "/"); intros [= _ _ <-]; cbn; lia. }
  destruct (Ascii.eqb c "@").
  { destruct (take_word text) as [w rest'] eqn:E.
    apply take_word_length in E.
    destruct w; intros [= _ _ <-]; cbn in *; lia. }
  destruct (is_word_char c) eqn:Hw.
  { destruct (take_word (String c text)) as [w rest'] eqn:E.
    intros [= _ _ <-]. pose proof (take_word_length _ _ _ E) as Hl.
    cbn in E. rewrite Hw in E. destruct (take_word text). injection E as <- _.
    cbn in Hl. cbn. lia. }
  destruct (Ascii.eqb c "010"); [discriminate|].
  intros [= _ _ <-]. cbn. lia.
Qed.

Lemma lex_from_enough (fuel : nat) (text : string) :
  String.length text <= fuel ->
  lex_from fuel text = lex text.
Proof.
  unfold lex. remember (String.length text) as n eqn:Hn.
  assert (Hle : String.length text <= n) by lia. clear Hn.
  revert text fuel Hle.
  induction n as [|n IH]; intros text fuel Hle Hfuel.
  - destruct text; [|cbn in Hle; lia]. destruct fuel; reflexivity.
  - destruct fuel as [|fuel]; [lia|].
    destruct text as [|c text]; [reflexivity|].
    cbn [lex_from].
    destruct (match_token (String c text)) as [[[tokname toktext] rest]|] eqn:E.
    + apply match_token_shorter in E. cbn in E, Hle.
      rewrite (IH rest fuel) by lia. reflexivity.
    + cbn in Hle. rewrite (IH text fuel) by lia. reflexivity.
Qed.

(** A path that starts with a tag name is refused: the first token finds the
    machine in [ROOT]. *)
Lemma word_first_raises (q : Q) :
  Runtime.querypath q "child/@attr" = Raise BadPath.
Proof. reflexivity. Qed.

Lemma dot_child_attr_calls (q : Q) :
  Runtime.querypath q "./child/@attr"
  = Ok (Runtime.attr (Runtime.tagged (Runtime.children q) "child") "attr").
Proof. reflexivity. Qed.

End Paths.

Lemma filter_map_pair {A B : Type} (f : A -> B) (p : B -> bool) (l : list A) :
  List.filter p (List.map f l) = List.map f (List.filter (fun x => p (f x)) l).
Proof.
  induction l as [|x l IH]; cbn; [reflexivity|].
  destruct (p (f x)); cbn; rewrite IH; reflexivity.
Qed.

(** C2, as the code has it: the path [./child/@attr] drives any query object
    through [children().tagged("child")] and then [attr("attr")]; from a node
    with exactly one child tagged [child], whose attribute [attr] is [v], it
    resolves to [v]. *)
Theorem dot_child_attr_resolves
    (n c : TreeQuery.Node) (v : string) :
  List.filter (fun k => bool_decide (TreeQuery.tag k = "child"))
    (TreeQuery.kids n) = [c] ->
  TreeQuery.lookup_attr "attr" c = Some v ->
  (forall (Q : Type) (H : Runtime.Query Q) (q : Q),
     Runtime.querypath q "./child/@attr"
     = Ok (Runtime.attr (Runtime.tagged (Runtime.children q) "child") "attr")) /\
  Runtime.querypath (TreeQuery.at_node n) "./child/@attr"
  = Ok (TreeQuery.Values [v]).
Proof.
  intros Hc Hv. split; [intros Q H q; apply dot_child_attr_calls|].
  rewrite dot_child_attr_calls. f_equal.
  unfold TreeQuery.at_node. cbn -[List.filter].
  unfold TreeQuery.children_of. cbn [fst snd].
  rewrite app_nil_r.
  rewrite (filter_map_pair (fun k => (k, [n]))
             (fun p => bool_decide (TreeQuery.tag (fst p) = "child"))).
  cbn [fst]. rewrite Hc. cbn. rewrite Hv. reflexivity.
Qed.

Lemma dot_child_attr_resolves_witness :
  (forall (Q : Type) (H : Runtime.Query Q) (q : Q),
     Runtime.querypath q "./child/@attr"
     = Ok (Runtime.attr (Runtime.tagged (Runtime.children q) "child") "attr")) /\
  Runtime.querypath (TreeQuery.at_node Samples.tree) "./child/@attr"
  = Ok (TreeQuery.Values ["v"]).
Proof.
  apply (dot_child_attr_resolves Samples.tree
           (TreeQuery.mkNode "child" [("attr", "v")] []) "v").
  - reflexivity.
  - reflexivity.
Defined.

(** C2, as stated, fails: from a node with exactly one child tagged [child],
    whose attribute [attr] is [v], the path [child/@attr] raises [BadPath]. *)
Lemma child_attr_path_raises :
  List.filter (fun k => bool_decide (TreeQuery.tag k = "child"))
    (TreeQuery.kids Samples.tree)
  = [TreeQuery.mkNode "child" [("attr", "v")] []] /\
  Runtime.querypath (TreeQuery.at_node Samples.tree) "child/@attr"
  = Raise BadPath.
Proof. split; reflexivity. Qed.

(** * Further properties *)

(** ** The in-memory store: slots, frames and deletion *)

(** X1: the store tells keys apart by slot only.  What is written under one
    key is read under every key with the same bucket string and field name,
    and a second write to the slot replaces the first whichever of these keys
    it is made under. *)
Theorem store_goes_by_slot {Value : Type}
    (store : MemoryKeyValueStore.t Value) (k1 k2 : Key) (v1 v2 : Value) :
  slot k1 = slot k2 ->
  MemoryKeyValueStore.get (MemoryKeyValueStore.set store k1 v1) k2 = Ok v1 /\
  MemoryKeyValueStore.set (MemoryKeyValueStore.set store k1 v1) k2 v2
  = MemoryKeyValueStore.set store k2 v2.
Proof.
  unfold slot. intros [= Ha Hf].
  unfold MemoryKeyValueStore.get, MemoryKeyValueStore.set. cbn.
  rewrite <- Ha, <- Hf, !lookup_insert_eq. cbn.
  split; [reflexivity|]. by rewrite !insert_insert_eq.
Qed.

Lemma store_goes_by_slot_witness :
  MemoryKeyValueStore.get
    (MemoryKeyValueStore.set MemoryKeyValueStore.init Samples.dotted_key 1)
    Samples.user_key = Ok 1 /\
  MemoryKeyValueStore.set
    (MemoryKeyValueStore.set MemoryKeyValueStore.init Samples.dotted_key 1)
    Samples.user_key 2
  = MemoryKeyValueStore.set MemoryKeyValueStore.init Samples.user_key 2.
Proof.
  apply (store_goes_by_slot MemoryKeyValueStore.init
           Samples.dotted_key Samples.user_key 1 2).
  reflexivity.
Defined.

(** X2: a write leaves every other slot as it was, for [get] and for [has],
    errors included, when the other slot is in another bucket or the bucket
    written to was there before. *)
Theorem set_frame {Value : Type}
    (store : MemoryKeyValueStore.t Value) (key key' : Key) (value : Value) :
  slot key' <> slot key ->
  MemoryKeyValueStore.actual_key key' <> MemoryKeyValueStore.actual_key key \/
  is_Some (MemoryKeyValueStore.d store !! MemoryKeyValueStore.actual_key key) ->
  MemoryKeyValueStore.get (MemoryKeyValueStore.set store key value) key'
  = MemoryKeyValueStore.get store key' /\
  MemoryKeyValueStore.has (MemoryKeyValueStore.set store key value) key'
  = MemoryKeyValueStore.has store key'.
Proof.
  unfold slot. intros Hslot Hb.
  unfold MemoryKeyValueStore.get, MemoryKeyValueStore.has,
    MemoryKeyValueStore.set. cbn.
  destruct (decide (MemoryKeyValueStore.actual_key key
                    = MemoryKeyValueStore.actual_key key')) as [Ha | Ha].
  - destruct Hb as [Hb | [bucket Hb]]; [congruence|].
    rewrite <- Ha, lookup_insert_eq, Hb. cbn.
    rewrite lookup_insert_ne; [done|]. intros Hf. apply Hslot. congruence.
  - rewrite lookup_insert_ne by exact Ha. done.
Qed.

Lemma set_frame_witness :
  MemoryKeyValueStore.get
    (MemoryKeyValueStore.set Samples2.stored Samples.alice_key 9)
    Samples.usage_key
  = MemoryKeyValueStore.get Samples2.stored Samples.usage_key /\
  MemoryKeyValueStore.has
    (MemoryKeyValueStore.set Samples2.stored Samples.alice_key 9)
    Samples.usage_key
  = MemoryKeyValueStore.has Samples2.stored Samples.usage_key.
Proof.
  apply (set_frame Samples2.stored Samples.alice_key Samples.usage_key 9).
  - vm_compute. discriminate.
  - left. vm_compute. discriminate.
Defined.

(** X3: the first write to a bucket changes what its other field names
    answer.  Before it, [get] and [has] on a sibling field raise [KeyError]
    with the bucket string; after it, [get] raises [KeyError] with the field
    name and [has] returns false. *)
Theorem first_write_creates_bucket {Value : Type}
    (store : MemoryKeyValueStore.t Value) (key key' : Key) (value : Value) :
  MemoryKeyValueStore.d store !! MemoryKeyValueStore.actual_key key = None ->
  MemoryKeyValueStore.actual_key key' = MemoryKeyValueStore.actual_key key ->
  field_name key' <> field_name key ->
  MemoryKeyValueStore.get store key'
  = Raise (KeyError (MemoryKeyValueStore.actual_key key')) /\
  MemoryKeyValueStore.has store key'
  = Raise (KeyError (MemoryKeyValueStore.actual_key key')) /\
  MemoryKeyValueStore.get (MemoryKeyValueStore.set store key value) key'
  = Raise (KeyError (field_name key')) /\
  MemoryKeyValueStore.has (MemoryKeyValueStore.set store key value) key'
  = Ok false.
Proof.
  intros Hd Ha Hf.
  unfold MemoryKeyValueStore.get, MemoryKeyValueStore.has,
    MemoryKeyValueStore.set. cbn.
  rewrite Ha, Hd, lookup_insert_eq. cbn.
  rewrite lookup_insert_ne by congruence. rewrite lookup_empty.
  repeat split.
Qed.

Lemma first_write_creates_bucket_witness :
  MemoryKeyValueStore.get (@MemoryKeyValueStore.init nat) Samples.usage_key
  = Raise (KeyError (MemoryKeyValueStore.actual_key Samples.usage_key)) /\
  MemoryKeyValueStore.has (@MemoryKeyValueStore.init nat) Samples.usage_key
  = Raise (KeyError (MemoryKeyValueStore.actual_key Samples.usage_key)) /\
  MemoryKeyValueStore.get
    (MemoryKeyValueStore.set MemoryKeyValueStore.init
       Samples2.upvotes_key 3)
    Samples.usage_key
  = Raise (KeyError (field_name Samples.usage_key)) /\
  MemoryKeyValueStore.has
    (MemoryKeyValueStore.set MemoryKeyValueStore.init
       Samples2.upvotes_key 3)
    Samples.usage_key
  = Ok false.
Proof.
  apply (first_write_creates_bucket MemoryKeyValueStore.init
           Samples2.upvotes_key Samples.usage_key 3).
  - reflexivity.
  - reflexivity.
  - vm_compute. discriminate.
Defined.

(** X4: [has] and [get] agree.  [has] returns true exactly when [get]
    returns a value, returns false when [get] raises [KeyError] with the
    field name, and raises only the [KeyError] that [get] raises for a
    missing bucket. *)
Theorem has_agrees_with_get {Value : Type}
    (store : MemoryKeyValueStore.t Value) (key : Key) :
  match MemoryKeyValueStore.has store key with
  | Ok true => exists v, MemoryKeyValueStore.get store key = Ok v
  | Ok false =>
      MemoryKeyValueStore.get store key = Raise (KeyError (field_name key))
  | Raise e =>
      e = KeyError (MemoryKeyValueStore.actual_key key) /\
      MemoryKeyValueStore.get store key = Raise e
  end.
Proof.
  unfold MemoryKeyValueStore.has, MemoryKeyValueStore.get.
  destruct (MemoryKeyValueStore.d store !! MemoryKeyValueStore.actual_key key)
    as [bucket|]; [|done].
  destruct (bucket !! field_name key) as [v|] eqn:E.
  - rewrite bool_decide_eq_true_2 by eauto. eauto.
  - rewrite bool_decide_eq_false_2; [done|]. by intros [? ?].
Qed.

(** X5: [delete] fails exactly as [get] fails, with the same [KeyError];
    where [get] returns a value, [delete] goes through. *)
Theorem delete_fails_as_get {Value : Type}
    (store : MemoryKeyValueStore.t Value) (key : Key) :
  match MemoryKeyValueStore.get store key with
  | Ok _ => exists store', MemoryKeyValueStore.delete store key = Ok store'
  | Raise e => MemoryKeyValueStore.delete store key = Raise e
  end.
Proof.
  unfold MemoryKeyValueStore.delete, MemoryKeyValueStore.get.
  destruct (MemoryKeyValueStore.d store !! MemoryKeyValueStore.actual_key key)
    as [bucket|]; [|done].
  destruct (bucket !! field_name key); eauto.
Qed.

(** X6: after a [delete] that went through, [get] on the key raises
    [KeyError] with the field name, [has] returns false (the bucket stays,
    even when it is left empty), and every other slot reads as before. *)
Theorem delete_then_read {Value : Type}
    (store store' : MemoryKeyValueStore.t Value) (key : Key) :
  MemoryKeyValueStore.delete store key = Ok store' ->
  MemoryKeyValueStore.get store' key = Raise (KeyError (field_name key)) /\
  MemoryKeyValueStore.has store' key = Ok false /\
  forall key', slot key' <> slot key ->
    MemoryKeyValueStore.get store' key' = MemoryKeyValueStore.get store key' /\
    MemoryKeyValueStore.has store' key' = MemoryKeyValueStore.has store key'.
Proof.
  unfold MemoryKeyValueStore.delete, MemoryKeyValueStore.get,
    MemoryKeyValueStore.has, slot.
  destruct (MemoryKeyValueStore.d store !! MemoryKeyValueStore.actual_key key)
    as [bucket|] eqn:Hb; [|discriminate].
  destruct (bucket !! field_name key) as [v|]; [|discriminate].
  intros [= <-]. cbn. rewrite lookup_insert_eq, lookup_delete_eq.
  split; [done|]. split.
  { rewrite bool_decide_eq_false_2; [done|]. by intros [? ?]. }
  intros key' Hslot.
  destruct (decide (MemoryKeyValueStore.actual_key key
                    = MemoryKeyValueStore.actual_key key')) as [Ha | Ha].
  - rewrite <- Ha, lookup_insert_eq, Hb.
    rewrite lookup_delete_ne; [done|]. intros Hf. apply Hslot. congruence.
  - rewrite lookup_insert_ne by exact Ha. done.
Qed.

Lemma delete_then_read_witness :
  MemoryKeyValueStore.get Samples2.emptied Samples2.upvotes_key
  = Raise (KeyError (field_name Samples2.upvotes_key)) /\
  MemoryKeyValueStore.has Samples2.emptied Samples2.upvotes_key = Ok false /\
  forall key', slot key' <> slot Samples2.upvotes_key ->
    MemoryKeyValueStore.get Samples2.emptied key'
    = MemoryKeyValueStore.get Samples2.stored key' /\
    MemoryKeyValueStore.has Samples2.emptied key'
    = MemoryKeyValueStore.has Samples2.stored key'.
Proof.
  apply (delete_then_read Samples2.stored Samples2.emptied
           Samples2.upvotes_key).
  vm_compute. reflexivity.
Defined.

Lemma set_commutes {Value : Type}
    (store : MemoryKeyValueStore.t Value) (k1 k2 : Key) (v1 v2 : Value) :
  slot k1 <> slot k2 ->
  MemoryKeyValueStore.set (MemoryKeyValueStore.set store k1 v1) k2 v2
  = MemoryKeyValueStore.set (MemoryKeyValueStore.set store k2 v2) k1 v1.
Proof.
  unfold slot. intros Hslot. unfold MemoryKeyValueStore.set. cbn. f_equal.
  destruct (decide (MemoryKeyValueStore.actual_key k1
                    = MemoryKeyValueStore.actual_key k2)) as [Ha | Ha].
  - rewrite <- Ha, !lookup_insert_eq. cbn. rewrite !insert_insert_eq.
    f_equal. apply insert_insert_ne. intros Hf. apply Hslot. congruence.
  - rewrite (lookup_insert_ne _ _ _ _ Ha).
    rewrite (lookup_insert_ne _ _ _ _ (not_eq_sym Ha)).
    apply insert_insert_ne. congruence.
Qed.

Lemma foldr_by_item {Value : Type}
    (store : MemoryKeyValueStore.t Value) (items : list (Key * Value)) :
  foldr (fun kv acc => MemoryKeyValueStore.set acc (fst kv) (snd kv))
    store items
  = foldr (uncurry (fun key value acc => MemoryKeyValueStore.set acc key value))
      store items.
Proof.
  induction items as [|[k v] items IH]; cbn; [reflexivity|].
  rewrite IH. reflexivity.
Qed.

(** X7: [set_many] does not depend on the order in which the dictionary is
    iterated.  When no two keys of the dictionary name the same slot, making
    the writes one by one in any order of the items gives the store that
    [set_many] gives. *)
Theorem set_many_any_order {Value : Type}
    (store : MemoryKeyValueStore.t Value) (update_dict : gmap Key Value)
    (items : list (Key * Value)) :
  items ≡ₚ map_to_list update_dict ->
  (forall k1 k2, is_Some (update_dict !! k1) -> is_Some (update_dict !! k2) ->
     slot k1 = slot k2 -> k1 = k2) ->
  fold_left (fun acc kv => MemoryKeyValueStore.set acc (fst kv) (snd kv))
    items store
  = MemoryKeyValueStore.set_many store update_dict.
Proof.
  intros Hperm Hinj. unfold MemoryKeyValueStore.set_many.
  rewrite map_fold_foldr, <- fold_left_rev_right.
  rewrite (foldr_by_item store (rev items)).
  symmetry.
  apply (foldr_permutation (=)).
  - intros x ? ? ->. reflexivity.
  - intros j1 [k1 v1] j2 [k2 v2] b Hj H1 H2. cbn.
    apply set_commutes. intros Hs.
    assert (k1 = k2) as <-.
    { apply Hinj; [| |symmetry; exact Hs].
      - exists v1. apply elem_of_map_to_list, list_elem_of_lookup. eauto.
      - exists v2. apply elem_of_map_to_list, list_elem_of_lookup. eauto. }
    apply Hj.
    apply (NoDup_lookup _ j1 j2 k1 (NoDup_fst_map_to_list update_dict)).
    + by rewrite list_lookup_fmap, H1.
    + by rewrite list_lookup_fmap, H2.
  - rewrite <- Hperm. apply Permutation_rev.
Qed.

Lemma set_many_any_order_witness :
  fold_left (fun acc kv => MemoryKeyValueStore.set acc (fst kv) (snd kv))
    (reverse (map_to_list Samples2.two_keys)) MemoryKeyValueStore.init
  = MemoryKeyValueStore.set_many MemoryKeyValueStore.init Samples2.two_keys.
Proof.
  apply (set_many_any_order MemoryKeyValueStore.init Samples2.two_keys
           (reverse (map_to_list Samples2.two_keys))).
  - apply reverse_Permutation.
  - intros k1 k2 H1 H2 Hs. unfold Samples2.two_keys in H1, H2.
    apply lookup_insert_is_Some in H1 as [<- | [_ H1]];
      apply lookup_insert_is_Some in H2 as [<- | [_ H2]]; try reflexivity.
    + apply lookup_insert_is_Some in H2 as [<- | [_ H2]];
        [vm_compute in Hs; discriminate|].
      rewrite lookup_empty in H2. by destruct H2.
    + apply lookup_insert_is_Some in H1 as [<- | [_ H1]];
        [vm_compute in Hs; discriminate|].
      rewrite lookup_empty in H1. by destruct H1.
    + apply lookup_insert_is_Some in H1 as [<- | [_ H1]];
        [|rewrite lookup_empty in H1; by destruct H1].
      apply lookup_insert_is_Some in H2 as [<- | [_ H2]]; [reflexivity|].
      rewrite lookup_empty in H2. by destruct H2.
Defined.

(** ** Field resolution and the shape of derived keys *)

Lemma resolve_in_namespaces_first (nss : list (string * Namespace))
    (name : string) (field : ModelType.t) :
  DbModel.resolve_in_namespaces nss name = Some field <->
  exists pre nsname ns post,
    nss = (pre ++ (nsname, ns) :: post)%list /\
    Forall (fun p => namespace_fields (snd p) !! name = None) pre /\
    namespace_fields ns !! name = Some field.
Proof.
  induction nss as [|[nsname ns] rest IH]; cbn.
  - split; [discriminate|]. intros (pre & ? & ? & ? & E & _).
    by destruct pre.
  - destruct (namespace_fields ns !! name) as [f|] eqn:Hns.
    + split.
      * intros [= <-]. exists [], nsname, ns, rest. auto.
      * intros ([|p pre] & n' & ns' & post & E & Hpre & Hf); simplify_eq/=;
          try congruence.
        all: apply Forall_cons in Hpre as [Hp _]; cbn in Hp; congruence.
    + rewrite IH. split.
      * intros (pre & n' & ns' & post & -> & Hpre & Hf).
        exists ((nsname, ns) :: pre), n', ns', post.
        split; [reflexivity|]. split; [|exact Hf].
        apply Forall_cons. auto.
      * intros ([|p pre] & n' & ns' & post & E & Hpre & Hf); simplify_eq/=;
          try congruence.
        apply Forall_cons in Hpre as [_ Hpre].
        exists pre, n', ns', post. auto.
Qed.

(** X8: [_getfield] returns a field exactly when the class itself declares
    it under the name, or the class does not and has namespaces of which the
    first, in their order, that declares the name declares that field: the
    class shadows its namespaces and an earlier namespace shadows a later
    one. *)
Theorem _getfield_resolution (self : DbModel.t) (name : string)
    (field : ModelType.t) :
  DbModel._getfield self name = Ok field <->
  class_fields (DbModel._block_cls self) !! name = Some field \/
  (class_fields (DbModel._block_cls self) !! name = None /\
   exists pre nsname ns post,
     namespaces (DbModel._block_cls self)
     = Some ((pre ++ (nsname, ns) :: post)%list) /\
     Forall (fun p => namespace_fields (snd p) !! name = None) pre /\
     namespace_fields ns !! name = Some field).
Proof.
  unfold DbModel._getfield.
  destruct (class_fields (DbModel._block_cls self) !! name) as [f|].
  { split; [intros [= <-]; auto|]. intros [[= <-] | [? _]]; done. }
  destruct (namespaces (DbModel._block_cls self)) as [nss|].
  - destruct (DbModel.resolve_in_namespaces nss name) as [f|] eqn:E.
    + apply resolve_in_namespaces_first in E
        as (pre & nsname & ns & post & -> & Hpre & Hf).
      split.
      * intros [= <-]. right. split; [done|]. eauto 10.
      * intros [? | [_ (pre' & n' & ns' & post' & [= E'] & Hpre' & Hf')]];
          [done|].
        assert (DbModel.resolve_in_namespaces
                  ((pre ++ (nsname, ns) :: post)%list) name = Some field) as Hr.
        { apply resolve_in_namespaces_first. rewrite E'. eauto 10. }
        assert (DbModel.resolve_in_namespaces
                  ((pre ++ (nsname, ns) :: post)%list) name = Some f) as Hr'.
        { apply resolve_in_namespaces_first. eauto 10. }
        congruence.
    + split; [discriminate|].
      intros [? | [_ (pre & n' & ns' & post & [= ->] & Hpre & Hf)]]; [done|].
      assert (DbModel.resolve_in_namespaces
                ((pre ++ (n', ns') :: post)%list) name = Some field) as Hr.
      { apply resolve_in_namespaces_first. eauto 10. }
      congruence.
  - split; [discriminate|]. intros [? | [_ (? & ? & ? & ? & ? & _)]]; done.
Qed.

(** X9: what [_key] gives.  A key it returns has the name as field name, no
    block id exactly for granularity ALL, and a student id only for a
    per-user scope of block granularity, where it is the overlay's student;
    when [_key] raises, it raises [KeyError] with the name, and the class
    has no field under that name. *)
Theorem _key_shape (self : DbModel.t) (name : string) :
  match DbModel._key self name with
  | Ok key =>
      field_name key = name /\
      (block_scope_id key = None <-> granularity (scope key) = Block ALL) /\
      student_id key
      = (if user (scope key)
         then match granularity (scope key) with
              | Block _ => DbModel._student_id self
              | _ => None
              end
         else None)
  | Raise e =>
      e = KeyError name /\
      class_fields (DbModel._block_cls self) !! name = None
  end.
Proof.
  unfold DbModel._key, DbModel._getfield.
  destruct (class_fields (DbModel._block_cls self) !! name) as [f|] eqn:Hc;
    cbn.
  2: destruct (namespaces (DbModel._block_cls self)) as [nss|]; cbn;
       [destruct (DbModel.resolve_in_namespaces nss name) as [f|]; cbn|];
       try done.
  all: destruct f as [[u g]]; cbn; destruct g as [[]| |], u; cbn;
    (split; [reflexivity|]); (split; [|reflexivity]);
    split; congruence.
Qed.

(** ** The overlay over the in-memory store *)

Lemma _key_error (self : DbModel.t) (name : string) (e : PyExn) :
  DbModel._key self name = Raise e ->
  e = KeyError name /\ DbModel._getfield self name = Raise (KeyError name).
Proof.
  unfold DbModel._key, DbModel._getfield.
  destruct (class_fields (DbModel._block_cls self) !! name) as [f|]; cbn.
  2: destruct (namespaces (DbModel._block_cls self)) as [nss|]; cbn;
       [destruct (DbModel.resolve_in_namespaces nss name) as [f|]; cbn|];
       try (intros [= <-]; done).
  all: destruct (granularity (ModelType.scope f)) as [b| |]; discriminate.
Qed.

(** X10: over the in-memory store, [contains] never raises and leaves the
    store alone; it returns true exactly when [get] on the name returns a
    value.  An undeclared name, a bucket never written to and a field never
    set all give false. *)
Theorem contains_agrees_with_get {Value : Type}
    (self : DbModel.t) (name : string) (kvs : MemoryKeyValueStore.t Value) :
  exists b,
    DbModel.__contains__ self name kvs = (Ok b, kvs) /\
    (b = true <-> exists v, DbModel.__getitem__ self name kvs = (Ok v, kvs)).
Proof.
  unfold DbModel.__contains__, DbModel.__getitem__.
  destruct (DbModel._key self name) as [key|e] eqn:Hk.
  - cbn. unfold MemoryKeyValueStore.has, MemoryKeyValueStore.get.
    destruct (MemoryKeyValueStore.d kvs !! MemoryKeyValueStore.actual_key key)
      as [bucket|]; cbn.
    + destruct (bucket !! field_name key) as [v|] eqn:E.
      * exists true. rewrite bool_decide_eq_true_2 by eauto.
        split; [done|]. split; eauto.
      * exists false. rewrite bool_decide_eq_false_2 by (by intros [? ?]).
        split; [done|]. split; [done|]. intros [v [=]].
    + exists false. split; [done|]. split; [done|]. intros [v [=]].
  - apply _key_error in Hk as [-> _]. exists false. cbn.
    split; [done|]. split; [done|]. intros [v [=]].
Qed.

(** X11: on an overlay over the in-memory store, after a [delete] of a
    field that went through, [get] on the field raises [KeyError] with the
    field's name and [contains] returns false. *)
Theorem delete_then_get {Value : Type}
    (self : DbModel.t) (name : string)
    (kvs kvs' : MemoryKeyValueStore.t Value) :
  DbModel.__delitem__ self name kvs = (Ok tt, kvs') ->
  DbModel.__getitem__ self name kvs' = (Raise (KeyError name), kvs') /\
  DbModel.__contains__ self name kvs' = (Ok false, kvs').
Proof.
  unfold DbModel.__delitem__, DbModel.__getitem__, DbModel.__contains__.
  destruct (DbModel._key self name) as [key|e] eqn:Hk; [|discriminate].
  apply _key_field_name in Hk. cbn.
  unfold MemoryKeyValueStore.delete, MemoryKeyValueStore.get,
    MemoryKeyValueStore.has.
  destruct (MemoryKeyValueStore.d kvs !! MemoryKeyValueStore.actual_key key)
    as [bucket|]; [|discriminate].
  destruct (bucket !! field_name key) as [v|]; [|discriminate].
  intros [= <-]. cbn. rewrite lookup_insert_eq, lookup_delete_eq, Hk.
  split; [done|]. rewrite bool_decide_eq_false_2 by (by intros [? ?]). done.
Qed.

Lemma delete_then_get_witness :
  DbModel.__getitem__ Samples.overlay "upvotes" Samples2.emptied
  = (Raise (KeyError "upvotes"), Samples2.emptied) /\
  DbModel.__contains__ Samples.overlay "upvotes" Samples2.emptied
  = (Ok false, Samples2.emptied).
Proof.
  apply (delete_then_get Samples.overlay "upvotes"
           Samples2.stored Samples2.emptied).
  vm_compute. reflexivity.
Defined.

(** X12: a write under one field name never changes the value read under
    another field name, whichever overlays of the store the two accesses go
    through. *)
Theorem set_keeps_other_names {Value : Type}
    (m1 m2 : DbModel.t) (n1 n2 : string) (value v : Value)
    (kvs : MemoryKeyValueStore.t Value) :
  n1 <> n2 ->
  DbModel.__getitem__ m2 n2 kvs = (Ok v, kvs) ->
  fst (DbModel.__getitem__ m2 n2 (snd (DbModel.__setitem__ m1 n1 value kvs)))
  = Ok v.
Proof.
  intros Hn. unfold DbModel.__getitem__, DbModel.__setitem__.
  destruct (DbModel._key m2 n2) as [k2|e2] eqn:H2; [|discriminate].
  destruct (DbModel._key m1 n1) as [k1|e1] eqn:H1; cbn.
  - intros [= Hg]. apply get_set_other; [|exact Hg].
    apply _key_field_name in H1, H2. intros [= _ Hf]. congruence.
  - intros [= Hg]. exact Hg.
Qed.

Lemma set_keeps_other_names_witness :
  fst (DbModel.__getitem__ Samples.overlay "upvotes"
         (snd (DbModel.__setitem__ Samples.overlay2 "title" 8
                 Samples2.stored)))
  = Ok 3.
Proof.
  apply (set_keeps_other_names Samples.overlay2 Samples.overlay
           "title" "upvotes" 8 3 Samples2.stored).
  - discriminate.
  - vm_compute. reflexivity.
Defined.

(** ** [update]: failure before any write, and the caller's empty
    dictionary *)

Section UpdateFailure.
Context {Value : Type}.

(** The loop of [update] either resolves every name or raises the
    [KeyError] of a name of the mapping that does not resolve. *)
Lemma resolve_all_outcome (self : DbModel.t) (mapping : gmap string Value) :
  match DbModel.resolve_all self mapping with
  | Ok _ =>
      forall name, is_Some (mapping !! name) ->
        is_ok (DbModel._getfield self name) = true
  | Raise e =>
      exists name, e = KeyError name /\ is_Some (mapping !! name) /\
                   is_ok (DbModel._getfield self name) = false
  end.
Proof.
  unfold DbModel.resolve_all.
  apply (map_fold_weak_ind (fun r (m : gmap string Value) =>
    match r with
    | Ok _ =>
        forall name, is_Some (m !! name) ->
          is_ok (DbModel._getfield self name) = true
    | Raise e =>
        exists name, e = KeyError name /\ is_Some (m !! name) /\
                     is_ok (DbModel._getfield self name) = false
    end)).
  - intros name Hn. rewrite lookup_empty in Hn. by destruct Hn.
  - intros i x m [ud|e] Hi IH; cbn.
    + destruct (DbModel._key self i) as [k|e] eqn:Hk; cbn.
      * intros name Hn. apply lookup_insert_is_Some in Hn as [<- | [_ Hn]];
          [|by apply IH].
        unfold DbModel._key in Hk.
        destruct (DbModel._getfield self i); [reflexivity|discriminate].
      * apply _key_error in Hk as [-> Hf]. exists i.
        rewrite lookup_insert_eq, Hf. eauto.
    + destruct IH as (name & -> & Hn & Hf). exists name.
      split; [reflexivity|]. split; [|exact Hf].
      apply lookup_insert_is_Some. destruct (decide (i = name)); auto.
Qed.

End UpdateFailure.

(** X13: [update] writes nothing unless every name resolves.  When the
    mapping has a name that is not a field, the call raises the [KeyError]
    of such a name and the backend, whatever it is, has received no call. *)
Theorem update_all_or_nothing
    {Value S : Type} `{!KeyValueStore.Interface Value S}
    (self : DbModel.t) (other_dict : option nat) (kwargs : gmap string Value)
    (heap : gmap nat (gmap string Value)) (kvs : S) (name : string) :
  is_Some ((kwargs ∪ from_option (DbModel.deref heap) ∅ other_dict) !! name) ->
  is_ok (DbModel._getfield self name) = false ->
  exists bad heap',
    is_Some ((kwargs ∪ from_option (DbModel.deref heap) ∅ other_dict) !! bad) /\
    is_ok (DbModel._getfield self bad) = false /\
    DbModel.update self other_dict kwargs heap kvs
    = (Raise (KeyError bad), kvs, heap').
Proof.
  intros Hn Hf.
  destruct (update_unfold self other_dict kwargs heap kvs) as (heap' & Hu & _).
  pose proof (resolve_all_outcome self
                (kwargs ∪ from_option (DbModel.deref heap) ∅ other_dict)) as Ho.
  destruct (DbModel.resolve_all self _) as [ud|e].
  - rewrite (Ho name Hn) in Hf. discriminate.
  - destruct Ho as (bad & -> & Hb & Hbf). exists bad, heap'. auto.
Qed.

Lemma update_all_or_nothing_witness :
  exists bad heap',
    is_Some ((Samples.keywords
              ∪ from_option (DbModel.deref Samples2.bad_heap) ∅ (Some 0))
             !! bad) /\
    is_ok (DbModel._getfield Samples.overlay bad) = false /\
    DbModel.update Samples.overlay (Some 0) Samples.keywords
      Samples2.bad_heap Samples.recorder
    = (Raise (KeyError bad), Samples.recorder, heap').
Proof.
  apply (update_all_or_nothing Samples.overlay (Some 0) Samples.keywords
           Samples2.bad_heap Samples.recorder "nope").
  - vm_compute. eauto.
  - vm_compute. reflexivity.
Defined.

(** X14: [update] writes the keyword arguments into a dictionary of its own
    when it is given no dictionary or an empty one: every dictionary of the
    heap, the caller's empty one included, is as before. *)
Theorem update_spares_empty_dict
    {Value S : Type} `{!KeyValueStore.Interface Value S}
    (self : DbModel.t) (other_dict : option nat) (kwargs : gmap string Value)
    (heap : gmap nat (gmap string Value)) (kvs : S) :
  from_option (DbModel.deref heap) ∅ other_dict = ∅ ->
  forall l, is_Some (heap !! l) ->
    snd (DbModel.update self other_dict kwargs heap kvs) !! l = heap !! l.
Proof.
  intros He l Hl.
  assert (Hfresh : fresh (dom heap) <> l).
  { intros <-. apply elem_of_dom in Hl. by apply is_fresh in Hl. }
  unfold DbModel.update.
  destruct other_dict as [l0|]; cbn [from_option] in He.
  - destruct (decide (DbModel.deref heap l0 = ∅)) as [_ | Hne]; [|done].
    unfold DbModel.alloc. cbv zeta.
    destruct (DbModel.resolve_all self _); cbn;
      by rewrite !lookup_insert_ne.
  - unfold DbModel.alloc. cbv zeta.
    destruct (DbModel.resolve_all self _); cbn;
      by rewrite !lookup_insert_ne.
Qed.

Lemma update_spares_empty_dict_witness :
  snd (DbModel.update Samples.overlay (Some 0) Samples.keywords
         Samples2.empty_heap Samples.recorder) !! 0
  = Samples2.empty_heap !! 0.
Proof.
  apply (update_spares_empty_dict Samples.overlay (Some 0) Samples.keywords
           Samples2.empty_heap Samples.recorder).
  - vm_compute. reflexivity.
  - vm_compute. eauto.
Defined.

(** ** Block ids of the store and the blocks of a runtime system *)

Lemma no_dot_pretty_N_go (x : N) (s : string) :
  no_dot s = true -> no_dot (pretty_N_go x s) = true.
Proof.
  revert s. induction (N.lt_wf_0 x) as [x _ IH]; intros s Hs.
  destruct (decide (x = 0)%N) as [-> | Hx]; [by rewrite pretty_N_go_0|].
  rewrite pretty_N_go_step by lia. apply IH.
  - apply N.div_lt; lia.
  - cbn. rewrite Hs. unfold pretty_N_char. by repeat case_match.
Qed.

Lemma no_dot_pretty (n : nat) : no_dot (pretty n) = true.
Proof.
  unfold pretty, pretty_nat, pretty, pretty_N.
  case_decide; [reflexivity|]. by apply no_dot_pretty_N_go.
Qed.

Lemma block_id_separates (k1 k2 : Key) (b1 b2 : string) :
  block_scope_id k1 = Some b1 -> block_scope_id k2 = Some b2 ->
  no_dot b1 = true -> no_dot b2 = true -> b1 <> b2 ->
  MemoryKeyValueStore.actual_key k1 <> MemoryKeyValueStore.actual_key k2.
Proof.
  intros H1 H2 Hd1 Hd2 Hne E. rewrite !actual_key_split in E.
  apply head_split in E as [_ E];
    [| apply no_dot_tag | apply no_dot_tag
     | apply dotted_suffix | apply dotted_suffix].
  unfold id_parts in E. rewrite H1, H2 in E. cbn [app suffix foldr] in E.
  injection E as E.
  apply head_split in E as [E _]; [done | done | done | |];
    apply dotted_suffix.
Qed.

Lemma get_set_other_bucket {Value : Type}
    (store : MemoryKeyValueStore.t Value) (key key' : Key) (value : Value) :
  MemoryKeyValueStore.actual_key key <> MemoryKeyValueStore.actual_key key' ->
  MemoryKeyValueStore.get (MemoryKeyValueStore.set store key value) key'
  = MemoryKeyValueStore.get store key'.
Proof.
  intros Ha. unfold MemoryKeyValueStore.get, MemoryKeyValueStore.set. cbn.
  by rewrite lookup_insert_ne.
Qed.

Lemma digit_of_pretty_N_char (x : N) :
  (x < 10)%N ->
  is_digit (pretty_N_char x) = true /\
  (N_of_ascii (pretty_N_char x) - 48)%N = x /\
  ((0 < x)%N -> pretty_N_char x <> "0"%char).
Proof.
  intros Hx.
  assert (x = 0 \/ x = 1 \/ x = 2 \/ x = 3 \/ x = 4 \/ x = 5 \/ x = 6
          \/ x = 7 \/ x = 8 \/ x = 9)%N as Hc by lia.
  repeat (destruct Hc as [-> | Hc]); try subst x;
    (split; [reflexivity|]); (split; [reflexivity|]);
    first [by intros ?%N.lt_irrefl | intros _; discriminate].
Qed.

Lemma all_digits_pretty_N_go (x : N) (s : string) :
  all_digits s = true -> all_digits (pretty_N_go x s) = true.
Proof.
  revert s. induction (N.lt_wf_0 x) as [x _ IH]; intros s Hs.
  destruct (decide (x = 0)%N) as [-> | Hx]; [by rewrite pretty_N_go_0|].
  rewrite pretty_N_go_step by lia. apply IH.
  - apply N.div_lt; lia.
  - cbn [all_digits]. rewrite Hs.
    destruct (digit_of_pretty_N_char (x `mod` 10)) as [-> _]; [|done].
    apply N.mod_lt. lia.
Qed.

Lemma value_pretty_N_go (x : N) (s : string) :
  fst (value_and_weight (pretty_N_go x s))
  = (x * snd (value_and_weight s) + fst (value_and_weight s))%N.
Proof.
  revert s. induction (N.lt_wf_0 x) as [x _ IH]; intros s.
  destruct (decide (x = 0)%N) as [-> | Hx].
  { rewrite pretty_N_go_0. lia. }
  rewrite pretty_N_go_step by lia.
  rewrite IH by (apply N.div_lt; lia).
  cbn [value_and_weight]. destruct (value_and_weight s) as [v w]. cbn [fst snd].
  destruct (digit_of_pretty_N_char (x `mod` 10)) as (_ & -> & _).
  { apply N.mod_lt. lia. }
  pose proof (N.div_mod x 10 ltac:(lia)) as Hdm. nia.
Qed.

Lemma pretty_N_go_leading (x : N) (s : string) :
  (0 < x)%N ->
  exists c rest, pretty_N_go x s = String c rest /\ c <> "0"%char.
Proof.
  revert s. induction (N.lt_wf_0 x) as [x _ IH]; intros s Hx.
  rewrite pretty_N_go_step by lia.
  destruct (decide (x `div` 10 = 0)%N) as [Hd | Hd].
  - rewrite Hd, pretty_N_go_0. eexists _, _. split; [reflexivity|].
    apply N.div_small_iff in Hd; [|lia].
    destruct (digit_of_pretty_N_char (x `mod` 10)) as (_ & _ & Hnz).
    { apply N.mod_lt. lia. }
    apply Hnz. rewrite N.mod_small by lia. lia.
  - apply IH; [apply N.div_lt; lia | by apply N.neq_0_lt_0].
Qed.

(** [str] of a counter value is its decimal numeral. *)
Lemma pretty_is_decimal (n : nat) : is_decimal_of (pretty n) n.
Proof.
  unfold is_decimal_of, decimal_value, pretty, pretty_nat, pretty, pretty_N.
  case_decide as Hn.
  - rewrite Hn. repeat split; auto.
  - split; [by apply all_digits_pretty_N_go|]. split.
    + rewrite value_pretty_N_go. cbn. lia.
    + right. apply pretty_N_go_leading. lia.
Qed.

(** X15: [new_block_id] advances the counter by two and returns, as usage id
    and definition id, the decimal numerals of the counter's two values.
    The ids of two calls, the second made at or after the counter the first
    returned, are four distinct strings, and none contains the bucket
    separator. *)
Theorem new_block_ids_distinct (c1 c2 : nat) :
  snd (BlockIds.new_block_id c1) <= c2 ->
  snd (BlockIds.new_block_id c1) = c1 + 2 /\
  is_decimal_of (usage_id (fst (BlockIds.new_block_id c1))) c1 /\
  is_decimal_of (def_id (fst (BlockIds.new_block_id c1))) (c1 + 1) /\
  NoDup [usage_id (fst (BlockIds.new_block_id c1));
         def_id (fst (BlockIds.new_block_id c1));
         usage_id (fst (BlockIds.new_block_id c2));
         def_id (fst (BlockIds.new_block_id c2))] /\
  no_dot (usage_id (fst (BlockIds.new_block_id c1))) = true /\
  no_dot (def_id (fst (BlockIds.new_block_id c1))) = true.
Proof.
  cbn. intros Hle. split; [lia|].
  split; [apply pretty_is_decimal|].
  split; [replace (c1 + 1) with (S c1) by lia; apply pretty_is_decimal|].
  split; [|auto using no_dot_pretty].
  repeat (apply NoDup_cons; split); [..|apply NoDup_nil_2];
    rewrite ?elem_of_cons, ?elem_of_nil;
    intros H; repeat (destruct H as [H | H]); try done;
    apply (inj pretty) in H; lia.
Qed.

Lemma new_block_ids_distinct_witness :
  snd (BlockIds.new_block_id 0) = 0 + 2 /\
  is_decimal_of (usage_id (fst (BlockIds.new_block_id 0))) 0 /\
  is_decimal_of (def_id (fst (BlockIds.new_block_id 0))) (0 + 1) /\
  NoDup [usage_id (fst (BlockIds.new_block_id 0));
         def_id (fst (BlockIds.new_block_id 0));
         usage_id (fst (BlockIds.new_block_id 2));
         def_id (fst (BlockIds.new_block_id 2))] /\
  no_dot (usage_id (fst (BlockIds.new_block_id 0))) = true /\
  no_dot (def_id (fst (BlockIds.new_block_id 0))) = true.
Proof.
  apply (new_block_ids_distinct 0 2). cbn. lia.
Defined.

(** X16: two blocks that [create_block] provisions with ids of the store's
    own, the second at or after the counter the first call returned, do not
    share storage for their block-specific fields (usage, definition,
    children, parent), whatever their classes and students: the keys fall in
    different buckets of the in-memory store, and a write through the first
    block's overlay leaves every such read through the second as it was. *)
Theorem created_blocks_do_not_share {Value : Type}
    (s1 s2 : option string) (cls1 cls2 : BlockClass) (c1 c2 : nat)
    (n1 n2 : string) (f1 f2 : ModelType.t) (value : Value)
    (kvs : MemoryKeyValueStore.t Value) :
  snd (RuntimeSystem.create_block_model s1 cls1 None c1) <= c2 ->
  DbModel._getfield
    (fst (RuntimeSystem.create_block_model s1 cls1 None c1)) n1 = Ok f1 ->
  DbModel._getfield
    (fst (RuntimeSystem.create_block_model s2 cls2 None c2)) n2 = Ok f2 ->
  block_specific (granularity (ModelType.scope f1)) = true ->
  block_specific (granularity (ModelType.scope f2)) = true ->
  exists k1 k2,
    DbModel._key (fst (RuntimeSystem.create_block_model s1 cls1 None c1)) n1
    = Ok k1 /\
    DbModel._key (fst (RuntimeSystem.create_block_model s2 cls2 None c2)) n2
    = Ok k2 /\
    MemoryKeyValueStore.actual_key k1 <> MemoryKeyValueStore.actual_key k2 /\
    fst (DbModel.__getitem__
           (fst (RuntimeSystem.create_block_model s2 cls2 None c2)) n2
           (snd (DbModel.__setitem__
                   (fst (RuntimeSystem.create_block_model s1 cls1 None c1))
                   n1 value kvs)))
    = fst (DbModel.__getitem__
             (fst (RuntimeSystem.create_block_model s2 cls2 None c2)) n2 kvs).
Proof.
  cbn. intros Hle H1 H2 Hb1 Hb2.
  unfold DbModel.__getitem__, DbModel.__setitem__, DbModel._key.
  rewrite H1, H2. cbn.
  assert (forall a b : nat, a <> b -> pretty a <> pretty b) as Hp.
  { intros a b Hab E. by apply (inj pretty) in E. }
  destruct (granularity (ModelType.scope f1)) as [[]| |],
    (granularity (ModelType.scope f2)) as [[]| |];
    try discriminate; cbn;
    do 2 eexists; (split; [reflexivity|]); (split; [reflexivity|]);
    (match goal with
     | |- ?a <> ?b /\ _ =>
         assert (a <> b) as Hne
           by (eapply block_id_separates;
               [reflexivity | reflexivity
               | apply no_dot_pretty | apply no_dot_pretty
               | apply Hp; lia])
     end);
    (split; [exact Hne|]); by rewrite get_set_other_bucket.
Qed.

Lemma created_blocks_do_not_share_witness :
  exists k1 k2,
    DbModel._key Samples2.first "upvotes" = Ok k1 /\
    DbModel._key Samples2.second "title" = Ok k2 /\
    MemoryKeyValueStore.actual_key k1 <> MemoryKeyValueStore.actual_key k2 /\
    fst (DbModel.__getitem__ Samples2.second "title"
           (snd (DbModel.__setitem__ Samples2.first "upvotes" 4
                   Samples2.stored)))
    = fst (DbModel.__getitem__ Samples2.second "title" Samples2.stored).
Proof.
  apply (created_blocks_do_not_share (Some "alice") (Some "alice")
           Samples.thumbs Samples.thumbs 0 2 "upvotes" "title"
           (ModelType.mk (mkScope false (Block USAGE)))
           (ModelType.mk (mkScope false (Block DEFINITION))) 4
           Samples2.stored).
  - cbn. lia.
  - vm_compute. reflexivity.
  - vm_compute. reflexivity.
  - reflexivity.
  - reflexivity.
Defined.

(** ** The lexer *)

Lemma word_char_plain (c : ascii) :
  is_word_char c = true ->
  Ascii.eqb c "." = false /\ Ascii.eqb c "/" = false /\
  Ascii.eqb c "@" = false /\ Ascii.eqb c "010" = false.
Proof.
  destruct c as [[] [] [] [] [] [] [] []]; vm_compute; auto; discriminate.
Qed.

Lemma take_word_spec (text w rest : string) :
  take_word text = (w, rest) -> text = w +:+ rest /\ all_word w = true.
Proof.
  revert w rest. induction text as [|c text IH]; intros w rest; cbn.
  - intros [= <- <-]. done.
  - destruct (is_word_char c) eqn:Hc.
    + destruct (take_word text) as [w' rest'] eqn:E. intros [= <- <-].
      destruct (IH w' rest' eq_refl) as [-> Hw]. cbn. by rewrite Hc, Hw.
    + intros [= <- <-]. done.
Qed.

Lemma match_token_some (text rest toktext : string) (tokname : TokName) :
  match_token text = Some (tokname, toktext, rest) ->
  text = toktext +:+ rest /\ token_matches (tokname, toktext) = true.
Proof.
  destruct text as [|c text]; [discriminate|]. cbn [match_token].
  destruct (Ascii.eqb c ".") eqn:Hdot.
  { apply Ascii.eqb_eq in Hdot as ->.
    destruct text as [|c' text']; [by intros [= <- <- <-]|].
    destruct (Ascii.eqb c' ".") eqn:Hd'; intros [= <- <- <-]; [|done].
    by apply Ascii.eqb_eq in Hd' as ->. }
  destruct (Ascii.eqb c "/") eqn:Hslash.
  { apply Ascii.eqb_eq in Hslash as ->.
    destruct text as [|c' text']; [by intros [= <- <- <-]|].
    destruct (Ascii.eqb c' "/") eqn:Hs'; intros [= <- <- <-]; [|done].
    by apply Ascii.eqb_eq in Hs' as ->. }
  destruct (Ascii.eqb c "@") eqn:Hat.
  { apply Ascii.eqb_eq in Hat as ->.
    destruct (take_word text) as [w rest'] eqn:E.
    apply take_word_spec in E as [-> Hw].
    destruct w as [|c' w]; intros [= <- <- <-]; [done|].
    split; [done|]. cbn in Hw. cbn. exact Hw. }
  destruct (is_word_char c) eqn:Hw.
  { cbn [take_word]. rewrite Hw.
    destruct (take_word text) as [w0 rest'] eqn:E. intros [= <- <- <-].
    apply take_word_spec in E as [-> Hall]. split; [done|].
    cbn. by rewrite Hw, Hall. }
  destruct (Ascii.eqb c "010") eqn:Hnl; [discriminate|].
  intros [= <- <- <-]. split; [done|]. cbn. by rewrite Hdot, Hslash, Hnl, Hw.
Qed.

Lemma match_token_none (c : ascii) (rest : string) :
  match_token (String c rest) = None -> c = "010"%char.
Proof.
  cbn [match_token].
  destruct (Ascii.eqb c ".").
  { destruct rest as [|c' rest']; [discriminate|].
    destruct (Ascii.eqb c' "."); discriminate. }
  destruct (Ascii.eqb c "/").
  { destruct rest as [|c' rest']; [discriminate|].
    destruct (Ascii.eqb c' "/"); discriminate. }
  destruct (Ascii.eqb c "@").
  { destruct (take_word rest) as [[|? ?] ?]; discriminate. }
  destruct (is_word_char c).
  { destruct (take_word (String c rest)); discriminate. }
  destruct (Ascii.eqb c "010") eqn:Hnl; [|discriminate].
  intros _. by apply Ascii.eqb_eq.
Qed.

Lemma append_assoc (a b c : string) : (a +:+ b) +:+ c = a +:+ (b +:+ c).
Proof.
  induction a as [|x a IH]; [reflexivity|].
  rewrite !append_cons, IH. reflexivity.
Qed.

Lemma strip_newlines_word (w rest : string) :
  all_word w = true ->
  strip_newlines (w +:+ rest) = w +:+ strip_newlines rest.
Proof.
  induction w as [|c w IH]; [reflexivity|]. cbn [all_word].
  intros [Hc Hw]%andb_prop. rewrite !append_cons. cbn [strip_newlines].
  destruct (word_char_plain c Hc) as (_ & _ & _ & ->). by rewrite IH.
Qed.

Lemma strip_newlines_token (tok : TokName * string) (rest : string) :
  token_matches tok = true ->
  strip_newlines (snd tok +:+ rest) = snd tok +:+ strip_newlines rest.
Proof.
  destruct tok as [tokname toktext]. cbn [snd].
  destruct tokname; cbn [token_matches].
  1-4: intros ->%bool_decide_eq_true; reflexivity.
  - destruct toktext as [|c [|c' w]]; try discriminate.
    intros [[Hc Hc']%andb_prop Hw]%andb_prop.
    apply Ascii.eqb_eq in Hc as ->.
    change (String "@" (String c' w)) with ("@" +:+ String c' w).
    rewrite append_assoc. change ("@" +:+ ?x) with (String "@" x).
    cbn [strip_newlines]. cbn [Ascii.eqb Bool.eqb].
    rewrite strip_newlines_word; [reflexivity|]. cbn. by rewrite Hc', Hw.
  - destruct toktext as [|c w]; [discriminate|]. intros H.
    by apply strip_newlines_word.
  - destruct toktext as [|c [|? ?]]; try discriminate.
    intros H%negb_true_iff. rewrite !orb_false_iff in H.
    destruct H as [[[_ _] Hnl] _]. rewrite append_cons. cbn [strip_newlines].
    by rewrite Hnl.
Qed.

Lemma concat_empty_cons (x : string) (l : list string) :
  String.concat EmptyString (x :: l) = x +:+ String.concat EmptyString l.
Proof.
  destruct l as [|y l]; [|reflexivity]. cbn. by rewrite append_empty_r.
Qed.

Lemma lex_from_round_trip (fuel : nat) (text : string) :
  String.length text <= fuel ->
  String.concat EmptyString (List.map snd (lex_from fuel text))
  = strip_newlines text.
Proof.
  revert text. induction fuel as [|fuel IH]; intros text Hlen.
  - destruct text; [reflexivity|cbn in Hlen; lia].
  - destruct text as [|c text]; [reflexivity|]. cbn [lex_from].
    destruct (match_token (String c text)) as [[[tokname toktext] rest]|] eqn:E.
    + pose proof (match_token_shorter _ _ _ _ E) as Hshort.
      apply match_token_some in E as [Et Hm].
      cbn [List.map snd]. rewrite concat_empty_cons, IH by (cbn in *; lia).
      rewrite Et. symmetry.
      apply (strip_newlines_token (tokname, toktext) rest Hm).
    + apply match_token_none in E as ->. cbn [strip_newlines].
      cbn [Ascii.eqb Bool.eqb]. apply IH. cbn in Hlen. lia.
Qed.

(** X17: the lexer loses nothing but newlines: the token texts, joined in
    order, are the text without its newline characters. *)
Theorem lex_round_trip (text : string) :
  String.concat EmptyString (List.map snd (lex text)) = strip_newlines text.
Proof. apply lex_from_round_trip. reflexivity. Qed.

Lemma lex_from_tokens_match (fuel : nat) (text : string) :
  Forall (fun tok => token_matches tok = true) (lex_from fuel text).
Proof.
  remember (String.length text) as n eqn:Hn.
  assert (Hle : String.length text <= n) by lia. clear Hn.
  revert text fuel Hle. induction n as [|n IH]; intros text fuel Hle.
  - destruct text; [|cbn in Hle; lia]. destruct fuel; constructor.
  - destruct fuel as [|fuel]; [constructor|].
    destruct text as [|c text]; [constructor|]. cbn [lex_from].
    destruct (match_token (String c text)) as [[[tokname toktext] rest]|] eqn:E.
    + pose proof (match_token_shorter _ _ _ _ E) as Hshort.
      apply match_token_some in E as [_ Hm].
      constructor; [exact Hm|]. apply IH. cbn in *. lia.
    + apply IH. cbn in Hle. lia.
Qed.

(** X18: every token the lexer yields has the text its regex matches: [..],
    [.], [//] and [/] for the four punctuation tokens, [@] and a non-empty
    run of word characters for [atword], a non-empty run of word characters
    for [word], and for [err] one character that is no word character, dot,
    slash or newline. *)
Theorem lex_tokens_match (text : string) :
  Forall (fun tok => token_matches tok = true) (lex text).
Proof. apply lex_from_tokens_match. Qed.

(** ** The paths that [querypath] resolves *)

Section PathShape.
Context {Q : Type} `{!Runtime.Query Q}.

Lemma querypath_loop_alternates (toks : list (TokName * string)) (q : Q)
    (prev : TokName) :
  prev <> err ->
  is_ok (Runtime.querypath_loop q (state_after prev) toks)
  = alternates prev (List.map fst toks).
Proof.
  revert q prev. induction toks as [|[t text] toks IH]; intros q prev Hprev;
    [reflexivity|].
  cbn [Runtime.querypath_loop List.map fst alternates].
  destruct prev, t; try done; cbn; repeat case_decide; try done; cbn;
    first [reflexivity
          | match goal with
            | |- _ = alternates ?t _ => apply (IH _ t); done
            end].
Qed.

Lemma querypath_loop_well_formed (toks : list (TokName * string)) (q : Q) :
  is_ok (Runtime.querypath_loop q Runtime.ROOT toks)
  = well_formed (List.map fst toks).
Proof.
  destruct toks as [|[t text] toks]; [reflexivity|].
  cbn [Runtime.querypath_loop List.map fst well_formed].
  destruct t; cbn; repeat case_decide; try done; cbn;
    first [reflexivity
          | match goal with
            | |- _ = alternates ?t _ =>
                apply (querypath_loop_alternates _ _ t); done
            end].
Qed.

Lemma alternates_no_err (names : list TokName) (prev : TokName) :
  err ∈ names -> alternates prev names = false.
Proof.
  revert prev. induction names as [|t names IH]; intros prev Hin.
  - by apply elem_of_nil in Hin.
  - cbn [alternates]. apply elem_of_cons in Hin as [<- | Hin].
    + by destruct prev.
    + rewrite (IH t Hin). apply andb_false_r.
Qed.

Lemma well_formed_no_err (names : list TokName) :
  err ∈ names -> well_formed names = false.
Proof.
  destruct names as [|t names]; [by intros ?%elem_of_nil|].
  intros [<- | Hin]%elem_of_cons; [reflexivity|].
  cbn [well_formed]. rewrite (alternates_no_err names t Hin).
  apply andb_false_r.
Qed.

End PathShape.

(** X19: [querypath] resolves a path exactly when its tokens are well
    formed: there are none, or the first is [.] or [..] and from then on
    separators ([/], [//]) and steps alternate, a step being [.], [..], a
    tag name or, as the last step only, an attribute.  A trailing separator
    is accepted, and whether a path resolves does not depend on the query
    object. *)
Theorem querypath_resolves_well_formed
    {Q : Type} `{!Runtime.Query Q} (q : Q) (path : string) :
  is_ok (Runtime.querypath q path) = well_formed (List.map fst (lex path)).
Proof. apply querypath_loop_well_formed. Qed.

(** X20: a path resolves only if it starts with a dot or a newline.  With
    any other first character the call raises: [NotImplementedError] when
    the path starts with a slash, [BadPath] otherwise. *)
Theorem querypath_first_character
    {Q : Type} `{!Runtime.Query Q} (q : Q) (c : ascii) (rest : string) :
  c <> "."%char -> c <> "010"%char ->
  Runtime.querypath q (String c rest)
  = Raise (if Ascii.eqb c "/" then NotImplementedError else BadPath).
Proof.
  intros Hdot%Ascii.eqb_neq Hnl%Ascii.eqb_neq.
  unfold Runtime.querypath, lex. cbn [String.length lex_from match_token].
  rewrite Hdot. destruct (Ascii.eqb c "/").
  { destruct rest as [|c' rest']; [reflexivity|].
    destruct (Ascii.eqb c' "/"); reflexivity. }
  destruct (Ascii.eqb c "@").
  { destruct (take_word rest) as [[|c' w] rest']; reflexivity. }
  destruct (is_word_char c).
  { destruct (take_word (String c rest)) as [w rest']; reflexivity. }
  rewrite Hnl. reflexivity.
Qed.

Lemma querypath_first_character_witness :
  Runtime.querypath (TreeQuery.at_node Samples.tree) (String "/" "child")
  = Raise (if Ascii.eqb "/" "/" then NotImplementedError else BadPath).
Proof.
  apply (querypath_first_character (TreeQuery.at_node Samples.tree)
           "/"%char "child").
  - discriminate.
  - discriminate.
Defined.

Lemma occurs_app (c : ascii) (a b : string) :
  occurs c (a +:+ b) = occurs c a || occurs c b.
Proof.
  induction a as [|x a IH]; [reflexivity|].
  rewrite append_cons. cbn [occurs]. rewrite IH. apply orb_assoc.
Qed.

Lemma occurs_word (c : ascii) (w : string) :
  all_word w = true -> occurs c w = true -> is_word_char c = true.
Proof.
  induction w as [|x w IH]; [discriminate|]. cbn [all_word occurs].
  intros [Hx Hw]%andb_prop [Hc | Hc]%orb_prop; [|by apply IH].
  by apply Ascii.eqb_eq in Hc as ->.
Qed.

Lemma foreign_char_in_err (tok : TokName * string) (c : ascii) :
  token_matches tok = true -> foreign_char c = true ->
  occurs c (snd tok) = true -> fst tok = err.
Proof.
  destruct tok as [tokname toktext]. cbn [fst snd].
  unfold foreign_char. intros Hm Hf%negb_true_iff.
  rewrite !orb_false_iff in Hf. destruct Hf as [[[[Hdot Hslash] Hat] Hnl] Hw].
  destruct tokname; cbn [token_matches] in Hm; try reflexivity.
  1-4: apply bool_decide_eq_true in Hm as ->; cbn;
       rewrite ?Hdot, ?Hslash; discriminate.
  - destruct toktext as [|x [|x' w]]; try discriminate.
    apply andb_prop in Hm as [[Hx Hx']%andb_prop Hall].
    apply Ascii.eqb_eq in Hx as ->. cbn [occurs]. rewrite Hat. cbn [orb].
    intros Hc. enough (is_word_char c = true) by congruence.
    apply (occurs_word c (String x' w)); [|exact Hc]. cbn. by rewrite Hx', Hall.
  - destruct toktext as [|x w]; [discriminate|]. intros Hc.
    enough (is_word_char c = true) by congruence.
    by apply (occurs_word c (String x w)).
Qed.

Lemma lex_from_foreign (fuel : nat) (text : string) (c : ascii) :
  String.length text <= fuel ->
  foreign_char c = true -> occurs c text = true ->
  err ∈ List.map fst (lex_from fuel text).
Proof.
  intros Hlen Hf. revert text Hlen.
  induction fuel as [|fuel IH]; intros text Hlen Hc.
  - destruct text; [discriminate|cbn in Hlen; lia].
  - destruct text as [|x text]; [discriminate|]. cbn [lex_from].
    destruct (match_token (String x text)) as [[[tokname toktext] rest]|] eqn:E.
    + pose proof (match_token_shorter _ _ _ _ E) as Hshort.
      apply match_token_some in E as [Et Hm].
      rewrite Et, occurs_app in Hc. cbn [List.map fst].
      apply orb_prop in Hc as [Hc | Hc].
      * pose proof (foreign_char_in_err (tokname, toktext) c Hm Hf Hc) as Ht.
        cbn in Ht. rewrite Ht. apply list_elem_of_here.
      * apply list_elem_of_further, IH; [cbn in *; lia | exact Hc].
    + apply match_token_none in E as ->. cbn [occurs] in Hc.
      apply orb_prop in Hc as [Hc | Hc].
      * apply Ascii.eqb_eq in Hc as ->. discriminate.
      * apply IH; [cbn in Hlen; lia | exact Hc].
Qed.

(** X21: a path with a character that belongs to no token (anything but a
    word character, a dot, a slash, an at sign or a newline) never resolves,
    wherever the character stands. *)
Theorem querypath_foreign_character
    {Q : Type} `{!Runtime.Query Q} (q : Q) (path : string) (c : ascii) :
  foreign_char c = true -> occurs c path = true ->
  is_ok (Runtime.querypath q path) = false.
Proof.
  intros Hf Hc. unfold Runtime.querypath.
  rewrite querypath_loop_well_formed. apply well_formed_no_err.
  by apply (lex_from_foreign _ path c).
Qed.

Lemma querypath_foreign_character_witness :
  is_ok (Runtime.querypath (TreeQuery.at_node Samples.tree) "./a b") = false.
Proof.
  apply (querypath_foreign_character (TreeQuery.at_node Samples.tree)
           "./a b" " "%char).
  - reflexivity.
  - reflexivity.
Defined.

(** ** Students and buckets *)

(** X22: the empty string is no student.  A field written through an
    overlay whose student id is the empty string lands in the bucket of the
    overlay without a student, and is read back there, also when the field
    is per-user. *)
Theorem empty_student_is_no_student {Value : Type}
    (cls : BlockClass) (block_id : BlockId) (name : string)
    (field : ModelType.t) (value : Value)
    (kvs : MemoryKeyValueStore.t Value) :
  DbModel._getfield (DbModel.mk None cls block_id) name = Ok field ->
  exists k1 k2,
    DbModel._key (DbModel.mk (Some EmptyString) cls block_id) name = Ok k1 /\
    DbModel._key (DbModel.mk None cls block_id) name = Ok k2 /\
    MemoryKeyValueStore.actual_key k1 = MemoryKeyValueStore.actual_key k2 /\
    fst (DbModel.__getitem__ (DbModel.mk None cls block_id) name
           (snd (DbModel.__setitem__ (DbModel.mk (Some EmptyString) cls block_id)
                   name value kvs)))
    = Ok value.
Proof.
  intros Hf.
  assert (Hf' : DbModel._getfield (DbModel.mk (Some EmptyString) cls block_id)
                  name = Ok field) by exact Hf.
  unfold DbModel.__getitem__, DbModel.__setitem__, DbModel._key.
  rewrite Hf, Hf'. cbn.
  destruct field as [[u g]]; cbn.
  destruct g as [[]| |], u; cbn;
    do 2 eexists; (split; [reflexivity|]); (split; [reflexivity|]);
    (split; [reflexivity|]);
    unfold MemoryKeyValueStore.get, MemoryKeyValueStore.set; cbn;
    by rewrite !lookup_insert_eq.
Qed.

Lemma empty_student_is_no_student_witness :
  exists k1 k2,
    DbModel._key (DbModel.mk (Some EmptyString) Samples.thumbs
                    (mkBlockId "0" "1")) "voted" = Ok k1 /\
    DbModel._key (DbModel.mk None Samples.thumbs (mkBlockId "0" "1")) "voted"
    = Ok k2 /\
    MemoryKeyValueStore.actual_key k1 = MemoryKeyValueStore.actual_key k2 /\
    fst (DbModel.__getitem__
           (DbModel.mk None Samples.thumbs (mkBlockId "0" "1")) "voted"
           (snd (DbModel.__setitem__
                   (DbModel.mk (Some EmptyString) Samples.thumbs
                      (mkBlockId "0" "1"))
                   "voted" 1 Samples2.stored)))
    = Ok 1.
Proof.
  apply (empty_student_is_no_student Samples.thumbs (mkBlockId "0" "1")
           "voted" (ModelType.mk (mkScope true (Block USAGE))) 1
           Samples2.stored).
  vm_compute. reflexivity.
Defined.

(** X23: two students with different, non-empty ids do not share a per-user
    field of a block.  When the block's usage id, definition id and type
    name are free of the bucket separator, the keys of a per-user field of
    block granularity fall in different buckets for the two students, and a
    write by one leaves what the other reads as it was. *)
Theorem students_do_not_share {Value : Type}
    (s1 s2 : string) (cls : BlockClass) (block_id : BlockId) (name : string)
    (field : ModelType.t) (b : BlockScope) (value : Value)
    (kvs : MemoryKeyValueStore.t Value) :
  s1 <> s2 -> s1 <> EmptyString -> s2 <> EmptyString ->
  no_dot (usage_id block_id) = true -> no_dot (def_id block_id) = true ->
  no_dot (__name__ cls) = true ->
  DbModel._getfield (DbModel.mk (Some s1) cls block_id) name = Ok field ->
  ModelType.scope field = mkScope true (Block b) ->
  exists k1 k2,
    DbModel._key (DbModel.mk (Some s1) cls block_id) name = Ok k1 /\
    DbModel._key (DbModel.mk (Some s2) cls block_id) name = Ok k2 /\
    MemoryKeyValueStore.actual_key k1 <> MemoryKeyValueStore.actual_key k2 /\
    fst (DbModel.__getitem__ (DbModel.mk (Some s2) cls block_id) name
           (snd (DbModel.__setitem__ (DbModel.mk (Some s1) cls block_id)
                   name value kvs)))
    = fst (DbModel.__getitem__ (DbModel.mk (Some s2) cls block_id) name kvs).
Proof.
  intros Hs H1 H2 Hu Hd Hn Hf Hscope.
  assert (Hf' : DbModel._getfield (DbModel.mk (Some s2) cls block_id) name
                = Ok field) by exact Hf.
  destruct field as [sc]. cbn in Hscope. subst sc.
  unfold DbModel.__getitem__, DbModel.__setitem__, DbModel._key.
  rewrite Hf, Hf'. cbn.
  do 2 eexists. split; [reflexivity|]. split; [reflexivity|].
  match goal with
  | |- MemoryKeyValueStore.actual_key ?k1 <> MemoryKeyValueStore.actual_key ?k2
       /\ _ =>
      assert (MemoryKeyValueStore.actual_key k1
              <> MemoryKeyValueStore.actual_key k2) as Hne
  end.
  { intros E. rewrite !actual_key_split in E.
    apply head_split in E as [_ E];
      [| apply no_dot_tag | apply no_dot_tag
       | apply dotted_suffix | apply dotted_suffix].
    apply id_parts_inj in E as [_ [= E]]; [done| | |].
    - split; cbn; [|congruence]. destruct b; intros i [= <-]; assumption.
    - split; cbn; [|congruence]. destruct b; intros i [= <-]; assumption.
    - cbn. destruct b; done. }
  split; [exact Hne|]. cbn. by rewrite get_set_other_bucket.
Qed.

Lemma students_do_not_share_witness :
  exists k1 k2,
    DbModel._key (DbModel.mk (Some "alice") Samples.thumbs (mkBlockId "0" "1"))
      "voted" = Ok k1 /\
    DbModel._key (DbModel.mk (Some "bob") Samples.thumbs (mkBlockId "0" "1"))
      "voted" = Ok k2 /\
    MemoryKeyValueStore.actual_key k1 <> MemoryKeyValueStore.actual_key k2 /\
    fst (DbModel.__getitem__
           (DbModel.mk (Some "bob") Samples.thumbs (mkBlockId "0" "1")) "voted"
           (snd (DbModel.__setitem__
                   (DbModel.mk (Some "alice") Samples.thumbs
                      (mkBlockId "0" "1"))
                   "voted" 1 Samples2.stored)))
    = fst (DbModel.__getitem__
             (DbModel.mk (Some "bob") Samples.thumbs (mkBlockId "0" "1"))
             "voted" Samples2.stored).
Proof.
  apply (students_do_not_share "alice" "bob" Samples.thumbs
           (mkBlockId "0" "1") "voted"
           (ModelType.mk (mkScope true (Block USAGE))) USAGE 1
           Samples2.stored); try discriminate; reflexivity.
Defined.

(** ** A set, other calls, then a get *)

Section SetThenGet.
Context {Value : Type}.
Implicit Types (store : MemoryKeyValueStore.t Value) (self : DbModel.t).

Lemma get_delete_other store store' (key key' : Key) :
  MemoryKeyValueStore.delete store key = Ok store' ->
  slot key' <> slot key ->
  MemoryKeyValueStore.get store' key' = MemoryKeyValueStore.get store key'.
Proof.
  unfold MemoryKeyValueStore.delete, MemoryKeyValueStore.get, slot.
  destruct (MemoryKeyValueStore.d store !! MemoryKeyValueStore.actual_key key)
    as [bucket|] eqn:Hb; [|discriminate].
  destruct (bucket !! field_name key) as [v|]; [|discriminate].
  intros [= <-] Hslot. cbn.
  destruct (decide (MemoryKeyValueStore.actual_key key
                    = MemoryKeyValueStore.actual_key key')) as [Ha | Ha].
  - rewrite <- Ha, lookup_insert_eq, Hb.
    rewrite lookup_delete_ne; [done|]. intros Hf. apply Hslot. congruence.
  - rewrite lookup_insert_ne by exact Ha. done.
Qed.

(** [set_many] keeps a readable slot that none of its keys names. *)
Lemma set_many_keeps store (update_dict : gmap Key Value) (key : Key)
    (v : Value) :
  (forall k, is_Some (update_dict !! k) -> slot key <> slot k) ->
  MemoryKeyValueStore.get store key = Ok v ->
  MemoryKeyValueStore.get (MemoryKeyValueStore.set_many store update_dict) key
  = Ok v.
Proof.
  intros Hother Hget. revert Hother. unfold MemoryKeyValueStore.set_many.
  apply (map_fold_weak_ind (fun r (m : gmap Key Value) =>
    (forall k, is_Some (m !! k) -> slot key <> slot k) ->
    MemoryKeyValueStore.get r key = Ok v)).
  - intros _. exact Hget.
  - intros i x m r Hi IH Hother. apply get_set_other.
    + apply Hother. rewrite lookup_insert_eq. eauto.
    + apply IH. intros k Hk. apply Hother.
      rewrite lookup_insert_ne; [exact Hk|]. intros <-.
      rewrite Hi in Hk. by destruct Hk.
Qed.

(** One call that is no delete of the field keeps the field readable, with
    the value the call wrote for it if it wrote one. *)
Lemma run_op_keeps_field self (name : string) (key : Key)
    (op : Session.Op Value) (v : Value)
    (st : MemoryKeyValueStore.t Value * gmap nat (gmap string Value)) :
  DbModel._key self name = Ok key ->
  op <> Session.OpDelete name ->
  MemoryKeyValueStore.get (fst st) key = Ok v ->
  MemoryKeyValueStore.get (fst (Session.run_op self op st)) key
  = Ok (default v (Session.written self name op st)).
Proof.
  intros Hkey Hop Hget. destruct st as [kvs heap]. cbn [fst] in Hget.
  pose proof (_key_field_name _ _ _ Hkey) as Hfn.
  destruct op as [n | n value | n | n | other_dict kwargs];
    cbn [Session.run_op Session.written default fst snd].
  - unfold DbModel.__getitem__. by destruct (DbModel._key self n).
  - unfold DbModel.__setitem__.
    destruct (DbModel._key self n) as [k|e] eqn:Hk; cbn.
    + pose proof (_key_field_name _ _ _ Hk) as Hkn.
      destruct (decide (n = name)) as [-> | Hne]; cbn.
      * assert (k = key) as -> by congruence. apply get_set_same.
      * apply get_set_other; [|exact Hget]. intros [= _ Hf]. congruence.
    + destruct (decide (n = name)) as [-> | Hne]; [congruence|exact Hget].
  - unfold DbModel.__delitem__.
    destruct (DbModel._key self n) as [k|e] eqn:Hk; cbn; [|exact Hget].
    destruct (MemoryKeyValueStore.delete kvs k) as [kvs'|e] eqn:Hd; cbn;
      [|exact Hget].
    rewrite (get_delete_other _ _ _ _ Hd); [exact Hget|].
    pose proof (_key_field_name _ _ _ Hk) as Hkn.
    intros [= _ Hf]. apply Hop. congruence.
  - unfold DbModel.__contains__.
    destruct (DbModel._key self n) as [k|e]; cbn; exact Hget.
  - destruct (update_unfold self other_dict kwargs heap kvs)
      as (heap' & Hu & _).
    rewrite Hu. clear Hu.
    set (mapping := kwargs ∪ from_option (DbModel.deref heap) ∅ other_dict).
    pose proof (resolve_all_outcome self mapping) as Hout.
    destruct (DbModel.resolve_all self mapping) as [ud|e] eqn:Hres; cbn;
      [|exact Hget].
    destruct (resolve_all_ok self mapping) as (ud' & Hres' & Hud).
    { intros n Hn. specialize (Hout n Hn).
      destruct (DbModel._getfield self n) as [f|] eqn:Hf; [|discriminate].
      destruct (_key_of_field _ _ _ Hf) as (? & ? & ?). eauto. }
    assert (ud' = ud) as -> by congruence.
    destruct (mapping !! name) as [x|] eqn:Hm; cbn.
    + apply set_many_get.
      * intros k1 k2 [v1 H1] [v2 H2] _ Hf.
        apply Hud in H1 as (n1 & _ & Hk1), H2 as (n2 & _ & Hk2).
        pose proof (_key_field_name _ _ _ Hk1).
        pose proof (_key_field_name _ _ _ Hk2). congruence.
      * apply Hud. eauto.
    + apply set_many_keeps; [|exact Hget].
      intros k [x Hk] [= _ Hf]. apply Hud in Hk as (n & Hn & Hkn).
      pose proof (_key_field_name _ _ _ Hkn). congruence.
Qed.

Lemma run_ops_keep_field self (name : string) (key : Key)
    (ops : list (Session.Op Value)) (v : Value)
    (st : MemoryKeyValueStore.t Value * gmap nat (gmap string Value)) :
  DbModel._key self name = Ok key ->
  Forall (fun op => op <> Session.OpDelete name) ops ->
  MemoryKeyValueStore.get (fst st) key = Ok v ->
  MemoryKeyValueStore.get (fst (Session.run_ops self ops st)) key
  = Ok (Session.last_set self name v ops st).
Proof.
  intros Hkey Hops. revert v st.
  induction Hops as [|op ops Hop _ IH]; intros v st Hget; [exact Hget|].
  cbn [Session.run_ops fold_left Session.last_set].
  apply IH. by apply run_op_keeps_field.
Qed.

End SetThenGet.

(** C8: on one overlay over the in-memory store, after a set of a declared
    field, a get of the field returns the value last set for it, whatever
    calls were made in between on the overlay (gets, sets of this or other
    fields, deletes of other fields, contains, updates), as long as none of
    them is a delete of the field. *)
Theorem set_then_get {Value : Type}
    (self : DbModel.t) (name : string) (field : ModelType.t) (value : Value)
    (ops : list (Session.Op Value))
    (kvs : MemoryKeyValueStore.t Value)
    (heap : gmap nat (gmap string Value)) :
  DbModel._getfield self name = Ok field ->
  Forall (fun op => op <> Session.OpDelete name) ops ->
  fst (DbModel.__setitem__ self name value kvs) = Ok tt /\
  fst (DbModel.__getitem__ self name
         (fst (Session.run_ops self ops
                 (snd (DbModel.__setitem__ self name value kvs), heap))))
  = Ok (Session.last_set self name value ops
          (snd (DbModel.__setitem__ self name value kvs), heap)).
Proof.
  intros Hf Hops. destruct (_key_of_field _ _ _ Hf) as (s & b & Hk).
  unfold DbModel.__getitem__ at 1. unfold DbModel.__setitem__ at 1.
  rewrite Hk. cbn [KeyValueStore.get KeyValueStore.set
                   MemoryKeyValueStore_backend fst].
  split; [reflexivity|].
  apply (run_ops_keep_field self name _ ops value _ Hk Hops).
  unfold DbModel.__setitem__. rewrite Hk. cbn. apply get_set_same.
Qed.

Lemma set_then_get_witness :
  fst (DbModel.__setitem__ Samples.overlay "upvotes" 3
         (@MemoryKeyValueStore.init nat)) = Ok tt /\
  fst (DbModel.__getitem__ Samples.overlay "upvotes"
         (fst (Session.run_ops Samples.overlay Samples2.between
                 (snd (DbModel.__setitem__ Samples.overlay "upvotes" 3
                         MemoryKeyValueStore.init),
                  Samples.caller_heap))))
  = Ok (Session.last_set Samples.overlay "upvotes" 3 Samples2.between
          (snd (DbModel.__setitem__ Samples.overlay "upvotes" 3
                  MemoryKeyValueStore.init),
           Samples.caller_heap)).
Proof.
  apply (set_then_get Samples.overlay "upvotes"
           (ModelType.mk (mkScope false (Block USAGE))) 3 Samples2.between
           MemoryKeyValueStore.init Samples.caller_heap).
  - vm_compute. reflexivity.
  - unfold Samples2.between. repeat constructor; discriminate.
Defined.
